(** * LHDiff core: a shallow embedding of the line normaliser, the similarity
    scores, the SimHash candidate index and the multi-pass matcher of
    [src/lh_diff], with the properties of its specification.

    Conventions of the embedding.
    - Python [str] is [string] over ASCII characters; the character classes
      [\w], [\d], [\s] of Python's [re] are their ASCII members.
    - Python floats are exact rationals [Q].
    - A Python [dict] is an association list kept in insertion order, which is
      the iteration order of the source; [Dict.set] is item assignment.
    - Exceptions ([IndexError]) are [None] of an [option]. *)

From Stdlib Require Import Bool Arith List Ascii String ZArith QArith Lia Lqa.
From Stdlib Require Import Sorting.Sorted Sorting.Permutation.
Import ListNotations.

Open Scope nat_scope.
Open Scope bool_scope.

(** ** Python dictionaries in insertion order *)
Module Dict.

Section Dict.
Context {K V : Type} (keq : K -> K -> bool).

Fixpoint get (d : list (K * V)) (k : K) : option V :=
  match d with
  | [] => None
  | (k', v) :: d' => if keq k k' then Some v else get d' k
  end.

Definition mem (d : list (K * V)) (k : K) : bool :=
  match get d k with Some _ => true | None => false end.

(** [d[k] = v]: an existing key keeps its place, a new key goes last. *)
Fixpoint set (d : list (K * V)) (k : K) (v : V) : list (K * V) :=
  match d with
  | [] => [(k, v)]
  | (k', v') :: d' => if keq k k' then (k', v) :: d' else (k', v') :: set d' k v
  end.

End Dict.

End Dict.

(** ** A backtracking matcher with the semantics of Python's [re]

    Alternatives are tried left to right, greedy repetition tries one more
    iteration before the rest of the pattern, lazy repetition the other way
    round; a group records the span of its last iteration. *)
Module Rx.

Definition caps := list (nat * (nat * nat)).

Inductive regex : Type :=
| Chr (p : ascii -> bool)          (* one character of a class *)
| Seq (r1 r2 : regex)
| Alt (r1 r2 : regex)
| Star (greedy : bool) (r : regex) (* [r*] (greedy) or [r*?] (lazy) *)
| Grp (n : nat) (r : regex)        (* capturing group number [n] *)
| WordB                            (* [\b] *)
| Eol                              (* [$] *)
| Eps.

Definition code (c : ascii) : nat := nat_of_ascii c.
Definition in_range (lo hi : nat) (c : ascii) : bool := (lo <=? code c) && (code c <=? hi).

Definition is_digit : ascii -> bool := in_range 48 57.
Definition is_upper : ascii -> bool := in_range 65 90.
Definition is_lower : ascii -> bool := in_range 97 122.
Definition is_alpha (c : ascii) : bool := is_upper c || is_lower c.
Definition is_alnum (c : ascii) : bool := is_alpha c || is_digit c.
(** [\w] *)
Definition is_word (c : ascii) : bool := is_alnum c || (code c =? 95).
(** [\s], and [str.isspace]: tab to carriage return, the four separators
    [\x1c]-[\x1f], and space. *)
Definition is_space (c : ascii) : bool := in_range 9 13 c || in_range 28 32 c.
Definition newline : ascii := ascii_of_nat 10.
(** [.]: every character but newline. *)
Definition is_dot (c : ascii) : bool := negb (Ascii.eqb c newline).
Definition is_char (a : ascii) (c : ascii) : bool := Ascii.eqb a c.

Definition word_at (s : list ascii) (i : nat) : bool :=
  match nth_error s i with Some c => is_word c | None => false end.

Definition word_before (s : list ascii) (i : nat) : bool :=
  match i with 0 => false | S i' => word_at s i' end.

(** [mt r s i g k]: match [r] in [s] at position [i] with captures [g], then
    the continuation [k] on the end position. *)
Fixpoint mt (r : regex) (s : list ascii) (i : nat) (g : caps)
    (k : nat -> caps -> option (nat * caps)) {struct r} : option (nat * caps) :=
  match r with
  | Chr p =>
      match nth_error s i with
      | Some c => if p c then k (S i) g else None
      | None => None
      end
  | Seq r1 r2 => mt r1 s i g (fun j g' => mt r2 s j g' k)
  | Alt r1 r2 =>
      match mt r1 s i g k with
      | Some x => Some x
      | None => mt r2 s i g k
      end
  | Star greedy r1 =>
      (fix loop (n i : nat) (g : caps) {struct n} : option (nat * caps) :=
         match n with
         | O => k i g
         | S n' =>
             if greedy then
               match mt r1 s i g (fun j g' => if i <? j then loop n' j g' else None) with
               | Some x => Some x
               | None => k i g
               end
             else
               match k i g with
               | Some x => Some x
               | None => mt r1 s i g (fun j g' => if i <? j then loop n' j g' else None)
               end
         end) (S (List.length s)) i g
  | Grp n r1 => mt r1 s i g (fun j g' => k j ((n, (i, j)) :: g'))
  | WordB => if xorb (word_before s i) (word_at s i) then k i g else None
  | Eol =>
      if (i =? List.length s) || ((S i =? List.length s) && (match nth_error s i with
                                                   | Some c => Ascii.eqb c newline
                                                   | None => false end))
      then k i g else None
  | Eps => k i g
  end.

Definition run (r : regex) (s : list ascii) (i : nat) : option (nat * caps) :=
  mt r s i [] (fun j g => Some (j, g)).

(** Leftmost match at a position [>= i]; [rest] is the suffix of [s] from [i]. *)
Fixpoint search_at (r : regex) (s : list ascii) (i : nat) (rest : list ascii)
    : option (nat * nat * caps) :=
  match run r s i with
  | Some (j, g) => Some (i, j, g)
  | None =>
      match rest with
      | [] => None
      | _ :: rest' => search_at r s (S i) rest'
      end
  end.

Definition chars (s : string) : list ascii := list_ascii_of_string s.
Definition str (l : list ascii) : string := string_of_list_ascii l.

(** [re.search(r, s) is not None] *)
Definition search (r : regex) (s : string) : bool :=
  match search_at r (chars s) 0 (chars s) with Some _ => true | None => false end.

(** [re.match(r, s)]: the match anchored at the start, with its captures. *)
Definition match_ (r : regex) (s : string) : option (nat * caps) := run r (chars s) 0.

Definition slice (s : list ascii) (a b : nat) : list ascii := firstn (b - a) (skipn a s).

Definition group (s : list ascii) (g : caps) (n : nat) : option string :=
  match Dict.get Nat.eqb g n with
  | Some (a, b) => Some (str (slice s a b))
  | None => None
  end.

(** Successive non-overlapping matches from position [i] ([re.finditer]);
    an empty match steps one character on. *)
Fixpoint finditer_at (fuel : nat) (r : regex) (s : list ascii) (i : nat)
    : list (nat * nat * caps) :=
  match fuel with
  | O => []
  | S f =>
      match search_at r s i (skipn i s) with
      | None => []
      | Some (a, b, g) =>
          (a, b, g) :: finditer_at f r s (if b =? a then S b else b)
      end
  end.

Definition finditer (r : regex) (s : string) : list (nat * nat * caps) :=
  finditer_at (S (List.length (chars s))) r (chars s) 0.

(** [re.findall] of a pattern without groups: the matched texts. *)
Definition findall (r : regex) (s : string) : list string :=
  map (fun '(a, b, _) => str (slice (chars s) a b)) (finditer r s).

(** [re.findall] of a pattern with one group: the texts of group 1. *)
Definition findall1 (r : regex) (s : string) : list string :=
  map (fun '(_, _, g) => match group (chars s) g 1 with Some t => t | None => EmptyString end)
      (finditer r s).

(** [re.sub(r, repl, s)]: every non-overlapping match replaced; an empty match
    keeps the next character and steps over it. *)
Fixpoint sub_at (fuel : nat) (r : regex) (repl : list ascii -> caps -> list ascii)
    (s : list ascii) (i : nat) : list ascii :=
  match fuel with
  | O => skipn i s
  | S f =>
      match search_at r s i (skipn i s) with
      | None => skipn i s
      | Some (a, b, g) =>
          slice s i a ++ repl s g ++
          (if b =? a
           then firstn 1 (skipn b s) ++ sub_at f r repl s (S b)
           else sub_at f r repl s b)
      end
  end.

Definition sub_with (r : regex) (repl : list ascii -> caps -> list ascii) (s : string) : string :=
  str (sub_at (S (List.length (chars s))) r repl (chars s) 0).

(** [re.sub] with a literal replacement. *)
Definition sub (r : regex) (repl : string) (s : string) : string :=
  sub_with r (fun _ _ => chars repl) s.

(** Pattern constructors. *)
Fixpoint lit_l (l : list ascii) : regex :=
  match l with
  | [] => Eps
  | [c] => Chr (is_char c)
  | c :: l' => Seq (Chr (is_char c)) (lit_l l')
  end.
Definition lit (s : string) : regex := lit_l (chars s).
Definition plus (r : regex) : regex := Seq r (Star true r).
Definition star (r : regex) : regex := Star true r.
Definition lazy (r : regex) : regex := Star false r.
Definition opt (r : regex) : regex := Alt r Eps.
Definition dot : regex := Chr is_dot.
Definition w : regex := Chr is_word.
Definition sp : regex := Chr is_space.
Fixpoint seqs (l : list regex) : regex :=
  match l with
  | [] => Eps
  | [r] => r
  | r :: l' => Seq r (seqs l')
  end.
Fixpoint alts (l : list regex) : regex :=
  match l with
  | [] => Eps
  | [r] => r
  | r :: l' => Alt r (alts l')
  end.

End Rx.

(** ** Python string methods used by the source *)
Module Str.
Import Rx.

Fixpoint drop_space (l : list ascii) : list ascii :=
  match l with
  | c :: l' => if is_space c then drop_space l' else l
  | [] => []
  end.

(** [s.strip()] *)
Definition strip (s : string) : string :=
  str (rev (drop_space (rev (drop_space (chars s))))).

Definition lower_char (c : ascii) : ascii :=
  if is_upper c then ascii_of_nat (code c + 32) else c.

(** [s.lower()] *)
Definition lower (s : string) : string := str (map lower_char (chars s)).

Fixpoint prefix_l (p l : list ascii) : bool :=
  match p, l with
  | [], _ => true
  | a :: p', b :: l' => Ascii.eqb a b && prefix_l p' l'
  | _ :: _, [] => false
  end.

(** [s.startswith(p)] *)
Definition startswith (s p : string) : bool := prefix_l (chars p) (chars s).

Fixpoint contains_l (p l : list ascii) : bool :=
  prefix_l p l || match l with [] => false | _ :: l' => contains_l p l' end.

(** [p in s] *)
Definition contains (s p : string) : bool := contains_l (chars p) (chars s).

(** [s.endswith(p)] *)
Definition endswith (s p : string) : bool := prefix_l (rev (chars p)) (rev (chars s)).

(** [s.count(c)] for a one-character [c] *)
Definition count_char (s : string) (c : ascii) : nat :=
  List.length (filter (Ascii.eqb c) (chars s)).

(** [sep.join(l)] *)
Fixpoint join (sep : string) (l : list string) : string :=
  match l with
  | [] => EmptyString
  | [x] => x
  | x :: l' => (x ++ sep ++ join sep l')%string
  end.

(** [s.split(c)] for a one-character separator [c] *)
Fixpoint split_l (c : ascii) (l : list ascii) (cur : list ascii) : list (list ascii) :=
  match l with
  | [] => [rev cur]
  | d :: l' => if Ascii.eqb c d then rev cur :: split_l c l' [] else split_l c l' (d :: cur)
  end.
Definition split (s : string) (c : ascii) : list string := map str (split_l c (chars s) []).

(** [s.split()] *)
Definition split_ws (s : string) : list string :=
  filter (fun t => negb (String.eqb t EmptyString))
    (map str (fold_right (fun c acc =>
       if is_space c then [] :: acc
       else match acc with [] => [[c]] | w :: acc' => (c :: w) :: acc' end) [[]] (chars s))).

End Str.

(** ** [lh_diff/io.py] *)
Module IO.
Import Rx.

Definition cr : ascii := ascii_of_nat 13.
Definition dq : ascii := ascii_of_nat 34.
Definition sq : ascii := ascii_of_nat 39.

(** Universal newlines of Python's text mode: [\r\n] and a lone [\r] read as [\n]. *)
Fixpoint universal_newlines (l : list ascii) : list ascii :=
  match l with
  | [] => []
  | c :: l' =>
      if Ascii.eqb c cr then
        match l' with
        | d :: l'' => if Ascii.eqb d newline then newline :: universal_newlines l''
                      else newline :: universal_newlines l'
        | [] => [newline]
        end
      else c :: universal_newlines l'
  end.

(** [read_file]: the lines of the decoded text, as iterating the file yields
    them, each with its newline stripped ([line.rstrip] of the newline). *)
Definition read_file (text : string) : list string :=
  let pieces := Str.split_l newline (universal_newlines (chars text)) [] in
  map str (match rev pieces with
           | [] :: rest => rev rest
           | _ => pieces
           end).

Definition comment_slashes : regex := Seq (lit "//") (star dot).
Definition comment_hash : regex := Seq (lit "#") (star dot).
Definition comment_triple_single : regex :=
  seqs [lit_l [sq; sq; sq]; lazy dot; lit_l [sq; sq; sq]].
Definition comment_block : regex := seqs [lit "/*"; lazy dot; lit "*/"].
Definition whitespace_run : regex := plus sp.

(** [normalize_line(line, remove_comments, lowercase)] *)
Definition normalize_line (remove_comments lowercase : bool) (line : string) : string :=
  let line := Str.strip line in
  let line := sub whitespace_run " " line in
  let line :=
    if remove_comments then
      let line := sub comment_slashes EmptyString line in
      let line := sub comment_hash EmptyString line in
      let line := sub comment_triple_single EmptyString line in
      sub comment_block EmptyString line
    else line in
  let line := if lowercase then Str.lower line else line in
  Str.strip line.

(** The opener pattern of the source: a group of three single quotes, three
    double quotes, or slash-star. *)
Definition block_opener : regex :=
  Grp 1 (alts [lit_l [sq; sq; sq]; lit_l [dq; dq; dq]; lit "/*"]).
(** The closer pattern: three single quotes, three double quotes, or star-slash. *)
Definition block_closer : regex :=
  Grp 1 (alts [lit_l [sq; sq; sq]; lit_l [dq; dq; dq]; lit "*/"]).
(** The opener pattern followed by [.*$]. *)
Definition opener_tail : regex := seqs [block_opener; star dot; Eol].
(** [.*?] followed by the closer pattern. *)
Definition closer_head : regex := Seq (lazy dot) block_closer.

(** [norm_lines[i] = v] for an index in range. *)
Fixpoint set_nth {A} (l : list A) (i : nat) (v : A) : list A :=
  match l, i with
  | [], _ => []
  | _ :: l', 0 => v :: l'
  | x :: l', S i' => x :: set_nth l' i' v
  end.

(** The inner [while not re.search(closer, norm_lines[i])] loop: blanks the
    lines before the closer line; [None] is the [IndexError] of reading past
    the last line. *)
Fixpoint erase_until_closer (fuel : nat) (i : nat) (ls : list string)
    : option (nat * list string) :=
  match fuel with
  | O => None
  | S f =>
      match nth_error ls i with
      | None => None
      | Some l =>
          if search block_closer l then Some (i, ls)
          else erase_until_closer f (S i) (set_nth ls i EmptyString)
      end
  end.

(** The outer [while currentLineIndex < maxLineIndex] loop. Each round moves
    the index forward, so [S (length ls)] rounds are enough. *)
Fixpoint block_loop (fuel : nat) (i : nat) (ls : list string) : option (list string) :=
  match fuel with
  | O => Some ls
  | S f =>
      if i <? List.length ls then
        match nth_error ls i with
        | None => None
        | Some l =>
            if search block_opener l then
              let ls1 := set_nth ls i (sub opener_tail EmptyString l) in
              match erase_until_closer (S (List.length ls1)) (S i) ls1 with
              | None => None
              | Some (j, ls2) =>
                  match nth_error ls2 j with
                  | None => None
                  | Some lj => block_loop f (S j) (set_nth ls2 j (sub closer_head EmptyString lj))
                  end
              end
            else block_loop f (S i) ls
        end
      else Some ls
  end.

(** [normalize_block_comments(norm_lines)]: [None] when it raises. *)
Definition normalize_block_comments (ls : list string) : option (list string) :=
  block_loop (S (List.length ls)) 0 ls.

(** Per-line normalisation (with the defaults [remove_comments=True],
    [lowercase=False]) followed by the block-comment pass. *)
Definition normalize_lines (raw : list string) : option (list string) :=
  normalize_block_comments (map (normalize_line true false) raw).

(** [build_normalized_lines(filepath)] on the decoded text of the file. *)
Definition build_normalized_lines (text : string) : option (list string) :=
  normalize_lines (read_file text).

End IO.

(** ** [lh_diff/similarity.py] *)
Module Similarity.
Import Rx.
Open Scope Q_scope.

(** Unit-cost edit distance ([rapidfuzz.distance.Levenshtein.distance]),
    row by row. *)
Fixpoint next_row (c : ascii) (b : list ascii) (diag : nat) (up_row : list nat) (left : nat)
    : list nat :=
  match b, up_row with
  | d :: b', up :: up_row' =>
      let v := Nat.min (Nat.min (up + 1) (left + 1)) (diag + (if Ascii.eqb c d then 0 else 1)) in
      v :: next_row c b' up up_row' v
  | _, _ => []
  end.

Definition step_row (b : list ascii) (row : list nat) (c : ascii) : list nat :=
  match row with
  | [] => []
  | d0 :: rest => S d0 :: next_row c b d0 rest (S d0)
  end.

Definition levenshtein_l (a b : list ascii) : nat :=
  last (fold_left (step_row b) a (seq 0 (S (List.length b)))) 0%nat.

Definition levenshtein (a b : string) : nat := levenshtein_l (chars a) (chars b).

(** [\b\d+\b] *)
Definition number_re : regex := seqs [WordB; plus (Chr is_digit); WordB].
(** [\b[_a-zA-Z]\w*\b] *)
Definition identifier_re : regex :=
  seqs [WordB; Chr (fun c => is_alpha c || is_char "_" c); star w; WordB].

(** [normalize_code(line)] *)
Definition normalize_code (line : string) : string :=
  let line := sub number_re "NUM" line in
  sub identifier_re "VAR" line.

Definition is_empty (s : string) : bool := String.eqb s EmptyString.

(** [content_similarity(a, b)] *)
Definition content_similarity (a b : string) : Q :=
  if is_empty a && is_empty b then 1
  else if is_empty a || is_empty b then 0
  else
    let norm_a := normalize_code a in
    let norm_b := normalize_code b in
    let distance := levenshtein norm_a norm_b in
    let max_len := Nat.max (String.length norm_a) (String.length norm_b) in
    1 - inject_Z (Z.of_nat distance) / inject_Z (Z.of_nat max_len).

(** [lines[start:end]] *)
Definition list_slice {A} (l : list A) (a b : nat) : list A := firstn (b - a) (skipn a l).

(** [build_context(lines, index, window)] *)
Definition build_context (lines : list string) (index window : nat) : string :=
  let start := (index - window)%nat in
  let end_ := Nat.min (List.length lines) (index + window + 1) in
  Str.join " " (list_slice lines start end_).

(** *** The TF-IDF cosine of scikit-learn's defaults

    [TfidfVectorizer()] lower-cases, takes the tokens [\b\w\w+\b], weighs a term
    by its count times the smoothed idf [ln((1+n)/(1+df)) + 1] with [n = 2]
    documents, and l2-normalises each row; [cosine_similarity] normalises the
    rows again and takes their dot product. A term of both documents has idf
    exactly 1; a term of one document has idf [1 + ln 1.5], kept as the double
    [1.4054651081081644]. Square roots are exact on squares of rationals and
    taken to 16 decimals otherwise. *)
Definition token_re : regex := seqs [WordB; w; plus w; WordB].

Definition tokens (doc : string) : list string := findall token_re (Str.lower doc).

Fixpoint dedup (l : list string) : list string :=
  match l with
  | [] => []
  | x :: l' => x :: filter (fun y => negb (String.eqb x y)) (dedup l')
  end.

Definition count_in (t : string) (l : list string) : Q :=
  inject_Z (Z.of_nat (List.length (filter (String.eqb t) l))).

Definition idf_one_document : Q := 14054651081081644 # 10000000000000000.

Definition Qsqrt (q : Q) : Q :=
  let n := Qnum q in
  let d := Zpos (Qden q) in
  if Z.eqb (Z.sqrt n * Z.sqrt n) n && Z.eqb (Z.sqrt d * Z.sqrt d) d
  then Z.sqrt n # Z.to_pos (Z.sqrt d)
  else Z.sqrt (n * d * 10 ^ 32) # (Z.to_pos d * 10 ^ 16).

Definition dot (u v : list Q) : Q := fold_left Qplus (map (fun '(x, y) => Qred (x * y)) (combine u v)) 0.

Definition l2_normalize (v : list Q) : list Q :=
  let nrm := Qsqrt (Qred (dot v v)) in
  if Qeq_bool nrm 0 then v else map (fun x => Qred (x / nrm)) v.

Definition tfidf_row (vocab : list string) (mine other : list string) : list Q :=
  map (fun t =>
         let tf := count_in t mine in
         let df := (if Qeq_bool (count_in t mine) 0 then 0 else 1)
                 + (if Qeq_bool (count_in t other) 0 then 0 else 1) in
         let idf := if Qeq_bool df 2 then 1 else idf_one_document in
         Qred (tf * idf)) vocab.

(** [context_similarity(a_context, b_context)]; the empty-vocabulary
    [ValueError] is caught and gives [0.0]. *)
Definition context_similarity (a_context b_context : string) : Q :=
  if is_empty (Str.strip a_context) || is_empty (Str.strip b_context) then 0
  else
    let ta := tokens a_context in
    let tb := tokens b_context in
    let vocab := dedup (ta ++ tb) in
    match vocab with
    | [] => 0
    | _ =>
        let va := l2_normalize (tfidf_row vocab ta tb) in
        let vb := l2_normalize (tfidf_row vocab tb ta) in
        Qred (dot (l2_normalize va) (l2_normalize vb))
    end.

(** [combined_similarity(a, b, a_context, b_context, weight_content,
    weight_context)] *)
Definition combined_similarity_w (a b a_context b_context : string) (weight_content weight_context : Q) : Q :=
  let c_sim := content_similarity a b in
  let x_sim := context_similarity a_context b_context in
  Qred (weight_content * c_sim + weight_context * x_sim).

(** ... with the default weights [0.6] and [0.4]. *)
Definition combined_similarity (a b a_context b_context : string) : Q :=
  combined_similarity_w a b a_context b_context (6 # 10) (4 # 10).

End Similarity.

(** ** [lh_diff/simhash_index.py]

    The fingerprint [compute_simhash] is the external [simhash] package; every
    statement below holds for any fingerprint function. *)
Module SimhashIndex.

Fixpoint pos_popcount (p : positive) : nat :=
  match p with
  | xH => 1
  | xO p' => pos_popcount p'
  | xI p' => S (pos_popcount p')
  end.

(** [bin(h).count("1")] for [h >= 0] *)
Definition popcount (n : N) : nat :=
  match n with N0 => 0 | Npos p => pos_popcount p end.

Definition hamming_distance (hash1 hash2 : N) : nat := popcount (N.lxor hash1 hash2).

(** [heapq.nsmallest(k, it, key)] is [sorted(it, key=key)[:k]], a stable sort:
    here a stable insertion sort on the key. *)
Fixpoint insert_by_key {A} (key : A -> nat) (x : A) (l : list A) : list A :=
  match l with
  | [] => [x]
  | y :: l' => if key x <=? key y then x :: l else y :: insert_by_key key x l'
  end.

Definition sort_by_key {A} (key : A -> nat) (l : list A) : list A :=
  fold_right (insert_by_key key) [] l.

Definition nsmallest {A} (k : nat) (l : list A) (key : A -> nat) : list A :=
  firstn k (sort_by_key key l).

Section Index.
Variable compute_simhash : string -> N.

(** [SimhashIndex(lines).hashes] *)
Definition hashes (lines : list string) : list N := map compute_simhash lines.

Fixpoint enumerate_from {A} (i : nat) (l : list A) : list (nat * A) :=
  match l with
  | [] => []
  | x :: l' => (i, x) :: enumerate_from (S i) l'
  end.

Definition enumerate {A} (l : list A) : list (nat * A) := enumerate_from 0 l.

(** [get_top_k_candidates(target_line, k)]: (index, distance) pairs. *)
Definition get_top_k_candidates (index_hashes : list N) (target_line : string) (k : nat)
    : list (nat * nat) :=
  let target_hash := compute_simhash target_line in
  let distances := map (fun '(i, h) => (i, hamming_distance target_hash h)) (enumerate index_hashes) in
  nsmallest k distances snd.

(** [generate_candidate_sets(old_lines, new_lines, k)] *)
Definition generate_candidate_sets (old_lines new_lines : list string) (k : nat)
    : list (nat * list nat) :=
  let new_index := hashes new_lines in
  map (fun '(old_idx, old_line) =>
         (old_idx, map fst (get_top_k_candidates new_index old_line k)))
      (enumerate old_lines).

End Index.

End SimhashIndex.

(** ** [lh_diff/matcher.py]: the state of a [DiffMatcher]

    The caches [similarity_cache] and [context_cache] hold values of pure
    functions and are left out; so are the entries the matcher stores and
    never reads ([line_indices] and [declaration_context] of a variable
    context, [old_flow] and [new_flow] of a logic rewrite, [old_pattern] and
    [replacement] of a field replacement). *)
Module Matcher.
Import Rx.
Import Similarity.
Open Scope Q_scope.

(** Python's [a > b], [max(a, b)] and [min(a, b)] on floats. *)
Definition qgt (a b : Q) : bool := negb (Qle_bool a b).
Definition qmax (a b : Q) : Q := if qgt b a then b else a.
Definition qmin (a b : Q) : Q := if qgt a b then b else a.
Definition qn (n : nat) : Q := inject_Z (Z.of_nat n).
(** [abs(i - j)] on indices *)
Definition dist (i j : nat) : Q := qn (Nat.max i j - Nat.min i j).

Definition in_str (x : string) (l : list string) : bool := existsb (String.eqb x) l.
Definition in_nat (x : nat) (l : list nat) : bool := existsb (Nat.eqb x) l.
(** [s.add(x)] on a set kept as a duplicate-free list *)
Definition set_add (l : list string) (x : string) : list string :=
  if in_str x l then l else l ++ [x].
Definition set_inter (a b : list string) : list string := filter (fun x => in_str x b) a.
Definition set_union (a b : list string) : list string := fold_left set_add b a.

(** [lines[i]]: [None] is the [IndexError]. *)
Definition getitem (lines : list string) (i : nat) : option string := nth_error lines i.

(** [range(a, b)] *)
Definition range (a b : nat) : list nat := seq a (b - a).

Definition bounds := list (string * (nat * nat)%type).

(** A field replacement: [replacement_line] and [confidence]. *)
Record replacement := { replacement_line : nat; repl_confidence : Q }.

(** A logic rewrite: [old_start], [new_start] and [confidence]. *)
Record rewrite := { old_start : nat; new_start : nat; rw_confidence : Q }.

(** A semantic pattern: [old_pattern], [new_pattern] and [confidence]. *)
Record sem_pattern := { sp_old : regex; sp_new : regex; sp_confidence : Q }.

Record state := {
  (** [structural_changes]: ['field_removed'] and ['removed_field_name'],
      always set together *)
  structural_changes : option (nat * string);
  variable_renames : list (string * string);
  method_boundaries_old : bounds;
  method_boundaries_new : bounds;
  field_usage_replacements : list (nat * replacement);
  old_lines_cache : list string;
  logic_rewrites : list (string * rewrite);
  semantic_patterns : list (string * sem_pattern)
}.

(** [DiffMatcher()] *)
Definition init : state :=
  {| structural_changes := None; variable_renames := [];
     method_boundaries_old := []; method_boundaries_new := [];
     field_usage_replacements := []; old_lines_cache := [];
     logic_rewrites := []; semantic_patterns := [] |}.

(** *** Method boundaries *)

(** [^\s*(?:public|private|protected)?\s*(?:\w+\s+)*\s*(\w+)\s*\(], used with
    [re.match] *)
Definition method_pattern : regex :=
  seqs [star sp; opt (alts [lit "public"; lit "private"; lit "protected"]); star sp;
        star (Seq (plus w) (plus sp)); star sp; Grp 1 (plus w); star sp; lit "("].

Definition lbrace : ascii := "{"%char.
Definition rbrace : ascii := "}"%char.

Definition truthy (s : string) : bool := negb (String.eqb s EmptyString).

(** The loop of [_find_method_boundaries] with [boundaries], [current_method],
    [brace_count] and [method_start]. *)
Fixpoint boundaries_loop (lines : list string) (i : nat) (bd : bounds)
    (current : option string) (brace : Z) (start : nat) : bounds :=
  match lines with
  | [] => bd
  | line :: rest =>
      let stripped := Str.strip line in
      match match_ method_pattern stripped with
      | Some (_, g) =>
          let '(current', start', brace') :=
            match current with
            | None =>
                (Some (match group (chars stripped) g 1 with Some n => n | None => EmptyString end),
                 i, 0%Z)
            | Some _ => (current, start, brace)
            end in
          boundaries_loop rest (S i) bd current' (brace' + Z.of_nat (Str.count_char line lbrace))%Z start'
      | None =>
          match current with
          | Some name =>
              if truthy name then
                let brace' := (brace + Z.of_nat (Str.count_char line lbrace)
                               - Z.of_nat (Str.count_char line rbrace))%Z in
                if Z.leb brace' 0 && Str.contains line "}" then
                  boundaries_loop rest (S i) (Dict.set String.eqb bd name (start, i)) None 0%Z start
                else boundaries_loop rest (S i) bd current brace' start
              else boundaries_loop rest (S i) bd current brace start
          | None => boundaries_loop rest (S i) bd current brace start
          end
      end
  end.

(** [_find_method_boundaries(lines)] *)
Definition find_method_boundaries (lines : list string) : bounds :=
  boundaries_loop lines 0 [] None 0%Z 0.

(** [_get_method_context(lines, line_idx, boundaries)] *)
Definition get_method_context (lines : list string) (line_idx : nat) (boundaries : bounds) : string :=
  match boundaries with
  | [] => "global"
  | _ =>
      match find (fun '(_, (s, e)) => (s <=? line_idx)%nat && (line_idx <=? e)%nat) boundaries with
      | Some (name, _) => name
      | None => "global"
      end
  end.

(** *** Fields and their replacements *)

Definition modifier : regex := alts [lit "public"; lit "private"; lit "protected"].

(** [(?:public|private|protected)\s+(?:\w+\s+)+\s*(\w+)\s*;] *)
Definition field_pattern : regex :=
  seqs [modifier; plus sp; plus (Seq (plus w) (plus sp)); star sp; Grp 1 (plus w); star sp; lit ";"].

(** [_extract_fields(lines)]: a set, in order of first occurrence. *)
Definition extract_fields (lines : list string) : list string :=
  fold_left (fun fields line => fold_left set_add (findall1 field_pattern line) fields) lines [].

Definition has_modifier (line : string) : bool :=
  Str.contains line "public" || Str.contains line "private" || Str.contains line "protected".

(** [_detect_field_changes(old_lines, new_lines)]. The source iterates over the
    set [old_fields - new_fields], whose order Python leaves unspecified; it is
    taken here in order of first occurrence. *)
Definition detect_field_changes (st : state) (old_lines new_lines : list string) : state :=
  let new_fields := extract_fields new_lines in
  let removed_fields := filter (fun f => negb (in_str f new_fields)) (extract_fields old_lines) in
  let sc := fold_left (fun sc field =>
              match find (fun '(_, line) => Str.contains line field && has_modifier line)
                         (SimhashIndex.enumerate old_lines) with
              | Some (i, _) => Some (i, field)
              | None => sc
              end) removed_fields (structural_changes st) in
  {| structural_changes := sc; variable_renames := variable_renames st;
     method_boundaries_old := method_boundaries_old st;
     method_boundaries_new := method_boundaries_new st;
     field_usage_replacements := field_usage_replacements st;
     old_lines_cache := old_lines_cache st;
     logic_rewrites := logic_rewrites st; semantic_patterns := semantic_patterns st |}.

(** [\b] + [re.escape(name)] + [\b] *)
Definition word_re (name : string) : regex := seqs [WordB; lit name; WordB].

Definition group_or_empty (s : string) (g : caps) (n : nat) : string :=
  match group (chars s) g n with Some t => t | None => EmptyString end.

(** [_extract_field_usage_pattern(line, field_name)]; the patterns are built
    from the name unescaped. *)
Definition extract_field_usage_pattern (line field_name : string) : option string :=
  let f := lit field_name in
  match search_at (seqs [f; lit "."; Grp 1 (plus w)]) (chars line) 0 (chars line) with
  | Some (_, _, g) => Some (field_name ++ "." ++ group_or_empty line g 1)%string
  | None =>
  match search_at (seqs [f; star sp; lit "=="; star sp; Grp 1 (plus w)]) (chars line) 0 (chars line) with
  | Some (_, _, g) => Some (field_name ++ " == " ++ group_or_empty line g 1)%string
  | None =>
  if search (seqs [f; star sp; lit "="; star sp]) line then Some (field_name ++ " assignment")%string
  else if search (seqs [lit "("; star sp; f; star sp; lit ")"]) line then Some ("(" ++ field_name ++ ")")%string
  else None
  end end.

(** [s.split(sep)[-1]] for a non-empty separator: the text after the last
    separator found scanning left to right; [skip] counts the characters of a
    separator still to pass. *)
Fixpoint after_last_sep (sep s cur : list ascii) (skip : nat) : list ascii :=
  match s with
  | [] => rev cur
  | c :: s' =>
      match skip with
      | S k => after_last_sep sep s' cur k
      | O =>
          if Str.prefix_l sep s then after_last_sep sep s' [] (pred (List.length sep))
          else after_last_sep sep s' (c :: cur) 0
      end
  end.

Definition binding_re : regex := seqs [WordB; plus w; lit "Binding"; WordB].

(** [_calculate_replacement_confidence(old_pattern, new_line, removed_field)] *)
Definition calculate_replacement_confidence (old_pattern new_line removed_field : string) : Q :=
  let confidence :=
    if Str.contains old_pattern ".id" && Str.contains new_line ".id" then 7 # 10
    else if Str.contains old_pattern "==" && Str.contains new_line "==" then
      let old_type := Str.strip (str (after_last_sep (chars "==") (chars old_pattern) [] 0)) in
      match search_at (seqs [lit "=="; star sp; Grp 1 (plus w)]) (chars new_line) 0 (chars new_line) with
      | Some (_, _, g) => if String.eqb old_type (group_or_empty new_line g 1) then 9 # 10 else 4 # 10
      | None => 4 # 10
      end
    else if Str.contains old_pattern "assignment" && Str.contains new_line "=" then 5 # 10
    else 0 in
  let old_simple := sub (word_re removed_field) "FIELD" old_pattern in
  let new_simple := sub binding_re "TYPE" new_line in
  let confidence :=
    if qgt (combined_similarity old_simple new_simple "" "") (5 # 10) then confidence + (3 # 10)
    else confidence in
  qmin confidence 1.

(** [_check_semantic_patterns(old_line, new_line)] *)
Definition check_semantic_patterns (st : state) (old_line new_line : string) : Q :=
  fold_left (fun boost '(_, p) =>
               if search (sp_old p) old_line && search (sp_new p) new_line
               then qmax boost (sp_confidence p * (5 # 10)) else boost)
            (semantic_patterns st) 0.

(** [_get_expected_replacement_area(old_idx, new_lines)] *)
Definition get_expected_replacement_area (st : state) (old_idx : nat) (new_lines : list string)
    : list nat :=
  let start := (old_idx - 15)%nat in
  let end_ := Nat.min (List.length new_lines) (old_idx + 15) in
  let '(start, end_) :=
    match old_lines_cache st with
    | [] => (start, end_)
    | _ =>
        let old_method := get_method_context (old_lines_cache st) old_idx (method_boundaries_old st) in
        match Dict.get String.eqb (method_boundaries_new st) old_method with
        | Some (ms, me) => (Nat.min start ms, Nat.max end_ me)
        | None => (start, end_)
        end
    end in
  range start end_.

(** [_find_field_replacement(old_pattern, new_lines, removed_field, old_idx,
    expected_area)]: the first line of best confidence, kept when its
    confidence exceeds [0.3]; [None] is the [IndexError] of an area outside
    [new_lines], which the source never builds. *)
Definition find_field_replacement (st : state) (old_pattern : string) (new_lines : list string)
    (removed_field : string) (expected_area : list nat) : option (option replacement) :=
  let step (acc : option (option replacement * Q)) (new_idx : nat) :=
    match acc with
    | None => None
    | Some (best, best_confidence) =>
        match getitem new_lines new_idx with
        | None => None
        | Some new_line =>
            if search (word_re removed_field) new_line then Some (best, best_confidence)
            else
              let confidence := calculate_replacement_confidence old_pattern new_line removed_field in
              let semantic_boost := check_semantic_patterns st old_pattern new_line in
              let confidence := qmin 1 (confidence + semantic_boost) in
              if qgt confidence best_confidence
              then Some (Some {| replacement_line := new_idx; repl_confidence := confidence |}, confidence)
              else Some (best, best_confidence)
        end
    end in
  match fold_left step expected_area (Some (None, 0)) with
  | None => None
  | Some (best, best_confidence) => Some (if qgt best_confidence (3 # 10) then best else None)
  end.

(** [_detect_field_usage_replacements(old_lines, new_lines)] *)
Definition detect_field_usage_replacements (st : state) (old_lines new_lines : list string)
    : option state :=
  match structural_changes st with
  | None => Some st
  | Some (_, removed_field) =>
      let old_usages := filter (fun '(_, line) => search (word_re removed_field) line)
                               (SimhashIndex.enumerate old_lines) in
      let fur :=
        fold_left (fun acc '(old_idx, old_line) =>
          match acc with
          | None => None
          | Some fur =>
              match extract_field_usage_pattern old_line removed_field with
              | None => Some fur
              | Some old_usage_pattern =>
                  let area := get_expected_replacement_area st old_idx new_lines in
                  match find_field_replacement st old_usage_pattern new_lines removed_field area with
                  | None => None
                  | Some None => Some fur
                  | Some (Some r) => Some (Dict.set Nat.eqb fur old_idx r)
                  end
              end
          end) old_usages (Some (field_usage_replacements st)) in
      match fur with
      | None => None
      | Some fur =>
          Some {| structural_changes := structural_changes st; variable_renames := variable_renames st;
                  method_boundaries_old := method_boundaries_old st;
                  method_boundaries_new := method_boundaries_new st;
                  field_usage_replacements := fur; old_lines_cache := old_lines_cache st;
                  logic_rewrites := logic_rewrites st; semantic_patterns := semantic_patterns st |}
      end
  end.

(** *** Variable renames *)

(** The entries of a variable context that the matcher reads. *)
Record var_context := {
  usage_count : nat;
  methods : list string;
  operations : list string;
  surrounding_contexts : list string
}.

Definition contexts := list (string * var_context).

(** [\b[a-z][a-zA-Z0-9]*\b] *)
Definition lower_word_re : regex := seqs [WordB; Chr is_lower; star (Chr is_alnum); WordB].
(** [\b[A-Z][a-zA-Z0-9]*\b] *)
Definition upper_word_re : regex := seqs [WordB; Chr is_upper; star (Chr is_alnum); WordB].

Definition java_keywords : list string :=
  ["if"; "else"; "for"; "while"; "return"; "new"; "this"; "super"; "null"; "true"; "false"; "final"]%string.
Definition common_types : list string :=
  ["int"; "long"; "double"; "float"; "boolean"; "char"; "byte"; "short"; "void"; "String"]%string.

(** [_extract_variables_from_line(line)] *)
Definition extract_variables_from_line (line : string) : list string :=
  if existsb (Str.contains line) ["class "; "interface "; "enum "; "public "; "private "; "protected "]%string
  then []
  else filter (fun word => negb (in_str word java_keywords) && negb (in_str word common_types)
                           && (2 <? String.length word)%nat)
              (findall lower_word_re line).

(** [s.split(c)[0]] *)
Definition split_first (s : string) (c : ascii) : string :=
  match Str.split s c with x :: _ => x | [] => EmptyString end.

(** [_extract_operations_from_line(line, var)]: a set, in order of addition. *)
Definition extract_operations_from_line (line var : string) : list string :=
  if negb (search (word_re var) line) then []
  else
    let v := Str.contains line var in
    (if Str.contains line ".id" && v then ["id_access"%string] else []) ++
    (if Str.contains line "==" && v then ["comparison"%string] else []) ++
    (if Str.contains line "=" && Str.contains (split_first line "="%char) var then ["assignment"%string] else []) ++
    (if Str.contains line "return" && v then ["return"%string] else []) ++
    (if Str.contains line "(" && v then ["method_call"%string] else []) ++
    (if Str.contains line "new " && v then ["instantiation"%string] else []) ++
    (if Str.contains line "." && Str.contains (split_first line "."%char) var then ["field_access"%string] else []).

(** [_normalize_context(context)] *)
Definition normalize_context (context : string) : string :=
  let normalized := sub lower_word_re "VAR" context in
  let normalized := sub upper_word_re "TYPE" normalized in
  sub number_re "NUM" normalized.

Definition empty_context : var_context :=
  {| usage_count := 0; methods := []; operations := []; surrounding_contexts := [] |}.

(** One side of [_build_variable_contexts(old_lines, new_lines)]. *)
Definition build_contexts (lines : list string) (boundaries : bounds) : contexts :=
  fold_left (fun ctxs '(i, line) =>
    fold_left (fun ctxs var =>
      let c := match Dict.get String.eqb ctxs var with Some c => c | None => empty_context end in
      let start := (i - 3)%nat in
      let end_ := Nat.min (List.length lines) (i + 4) in
      let surrounding := Str.join " " (list_slice lines start end_) in
      let c' := {| usage_count := S (usage_count c);
                   methods := set_add (methods c) (get_method_context lines i boundaries);
                   operations := fold_left set_add (extract_operations_from_line line var) (operations c);
                   surrounding_contexts := set_add (surrounding_contexts c) (normalize_context surrounding) |} in
      Dict.set String.eqb ctxs var c')
      (extract_variables_from_line line) ctxs)
    (SimhashIndex.enumerate lines) [].

(** [_calculate_context_similarity(old_context, new_context)] *)
Definition calculate_context_similarity (o n : var_context) : Q :=
  let part (a b : list string) (weight : Q) :=
    let overlap := List.length (set_inter a b) in
    let union := List.length (set_union a b) in
    if (0 <? union)%nat then qn overlap / qn union * weight else 0 in
  part (methods o) (methods n) (3 # 10) + part (operations o) (operations n) (4 # 10)
  + part (surrounding_contexts o) (surrounding_contexts n) (3 # 10).

(** [best_match] and [best_score] of a scan with a strict improvement and a
    floor. *)
Definition best_over {A} (score : A -> option Q) (floor : Q) (l : list A) : option A * Q :=
  fold_left (fun '(best, best_score) x =>
               match score x with
               | Some s => if qgt s best_score && qgt s floor then (Some x, s) else (best, best_score)
               | None => (best, best_score)
               end) l (None, 0).

(** [_find_variable_renames_by_context()] *)
Definition find_variable_renames_by_context (old_ctx new_ctx : contexts) : list (string * (string * Q)) :=
  fold_left (fun renames '(old_var, oc) =>
    if (usage_count oc <? 2)%nat then renames
    else
      match best_over (fun '(_, nc) => if (usage_count nc <? 2)%nat then None
                                       else Some (calculate_context_similarity oc nc))
                      (6 # 10) new_ctx with
      | (Some (new_var, _), s) =>
          if truthy new_var then Dict.set String.eqb renames old_var (new_var, s) else renames
      | (None, _) => renames
      end) old_ctx [].

(** [_contexts_are_compatible(old_var, new_var)] *)
Definition contexts_are_compatible (old_ctx new_ctx : contexts) (old_var new_var : string) : bool :=
  match Dict.get String.eqb old_ctx old_var, Dict.get String.eqb new_ctx new_var with
  | Some oc, Some nc =>
      negb (Nat.eqb (List.length (set_inter (methods oc) (methods nc))) 0)
      && negb (Nat.eqb (List.length (set_inter (operations oc) (operations nc))) 0)
  | _, _ => false
  end.

(** The text of group 1 followed by [tail]: the replacement [\1] + [tail]. *)
Definition group1_then (tail : string) (s : list ascii) (g : caps) : list ascii :=
  match group s g 1 with Some t => chars t ++ chars tail | None => chars tail end.

(** [(\w+)] + [suffix] and [prefix] + [(\w+)] *)
Definition with_suffix (suffix : string) : regex := Seq (Grp 1 (plus w)) (lit suffix).
Definition with_prefix (prefix : string) : regex := Seq (lit prefix) (Grp 1 (plus w)).

Definition matches_at_start (r : regex) (s : string) : bool :=
  match match_ r s with Some _ => true | None => false end.

(** The [common_patterns] of [_find_variable_renames_by_pattern]: a pattern,
    the text after [\1] in its replacement, and a confidence. *)
Definition common_patterns : list (regex * string * Q) :=
  [(with_suffix "Tb", "Type"%string, 9 # 10); (with_suffix "Temp", EmptyString, 7 # 10);
   (with_suffix "Var", EmptyString, 7 # 10); (with_suffix "Old", EmptyString, 6 # 10);
   (with_suffix "New", EmptyString, 6 # 10); (with_suffix "Binding", "Type"%string, 8 # 10)].

(** [_find_variable_renames_by_pattern()] *)
Definition find_variable_renames_by_pattern (old_ctx new_ctx : contexts) : list (string * (string * Q)) :=
  fold_left (fun renames '(old_var, _) =>
    match find (fun '(pattern, tail, _) =>
                  matches_at_start pattern old_var &&
                  (let potential_new := sub_with pattern (group1_then tail) old_var in
                   Dict.mem String.eqb new_ctx potential_new
                   && contexts_are_compatible old_ctx new_ctx old_var potential_new))
               common_patterns with
    | Some (pattern, tail, confidence) =>
        Dict.set String.eqb renames old_var (sub_with pattern (group1_then tail) old_var, confidence)
    | None => renames
    end) old_ctx [].

(** [_find_paired_variable_renames()] *)
Definition find_paired_variable_renames (old_ctx new_ctx : contexts) : list (string * (string * Q)) :=
  let groups :=
    fold_left (fun groups '(old_var, _) =>
      fold_left (fun groups pattern =>
        match match_ pattern old_var with
        | Some (_, g) =>
            let base_name := group_or_empty old_var g 1 in
            let olds := match Dict.get String.eqb groups base_name with Some l => l | None => [] end in
            Dict.set String.eqb groups base_name (olds ++ [old_var])
        | None => groups
        end) [with_suffix "Tb"; with_suffix "Binding"] groups) old_ctx [] in
  fold_left (fun renames '(base_name, old_vars) =>
    if (2 <=? List.length old_vars)%nat then
      let potential_new_vars :=
        filter (Dict.mem String.eqb new_ctx) [(base_name ++ "Type")%string; base_name] in
      fold_left (fun renames '(i, old_var) =>
        match nth_error potential_new_vars i with
        | Some new_var =>
            if contexts_are_compatible old_ctx new_ctx old_var new_var
            then Dict.set String.eqb renames old_var (new_var, 85 # 100) else renames
        | None => renames
        end) (SimhashIndex.enumerate old_vars) renames
    else renames) groups [].

(** The [rename_patterns] of [_calculate_name_similarity]. *)
Definition rename_patterns : list (regex * string * Q) :=
  [(with_suffix "Tb", "Type"%string, 9 # 10); (with_suffix "Binding", "Type"%string, 8 # 10);
   (with_prefix "temp", EmptyString, 7 # 10); (with_prefix "old", EmptyString, 6 # 10);
   (with_prefix "new", EmptyString, 6 # 10)].

Fixpoint common_prefix (a b : list ascii) : nat :=
  match a, b with
  | x :: a', y :: b' => if Ascii.eqb x y then S (common_prefix a' b') else 0
  | _, _ => 0
  end.

(** [_calculate_name_similarity(old_name, new_name)] *)
Definition calculate_name_similarity (old_name new_name : string) : Q :=
  if String.eqb old_name new_name then 1
  else
    match find (fun '(pattern, tail, _) =>
                  matches_at_start pattern old_name
                  && String.eqb (sub_with pattern (group1_then tail) old_name) new_name)
               rename_patterns with
    | Some (_, _, confidence) => confidence
    | None =>
        let max_len := Nat.max (String.length old_name) (String.length new_name) in
        if Nat.eqb max_len 0 then 0
        else
          let lev := 1 - qn (levenshtein old_name new_name) / qn max_len in
          if (3 <=? common_prefix (chars old_name) (chars new_name))%nat
          then qmin 1 (lev + (2 # 10)) else lev
    end.

(** [_find_variable_renames_by_semantic_similarity()] *)
Definition find_variable_renames_by_semantic_similarity (old_ctx new_ctx : contexts)
    : list (string * (string * Q)) :=
  fold_left (fun renames '(old_var, oc) =>
    if (usage_count oc <? 2)%nat then renames
    else
      match best_over (fun '(new_var, nc) =>
                         if (usage_count nc <? 2)%nat then None
                         else Some (calculate_name_similarity old_var new_var * (3 # 10)
                                    + calculate_context_similarity oc nc * (7 # 10)))
                      (65 # 100) new_ctx with
      | (Some (new_var, _), s) =>
          if truthy new_var then Dict.set String.eqb renames old_var (new_var, s) else renames
      | (None, _) => renames
      end) old_ctx [].

(** [_validate_rename(old_var, new_var, old_lines, new_lines)] *)
Definition validate_rename (old_ctx new_ctx : contexts) (old_var new_var : string)
    (old_lines new_lines : list string) : bool :=
  if existsb (search (word_re old_var)) new_lines then false
  else
    match Dict.get String.eqb old_ctx old_var, Dict.get String.eqb new_ctx new_var with
    | Some oc, Some nc =>
        negb (Nat.eqb (List.length (set_inter (operations oc) (operations nc))) 0)
        && negb (Nat.eqb (List.length (set_inter (methods oc) (methods nc))) 0)
    | _, _ => false
    end.

(** A later stage's rename replaces an earlier one of strictly lower confidence. *)
Definition merge_renames (all_renames stage : list (string * (string * Q))) : list (string * (string * Q)) :=
  fold_left (fun all_renames '(old_var, (new_var, conf)) =>
    match Dict.get String.eqb all_renames old_var with
    | Some (_, c0) => if qgt conf c0 then Dict.set String.eqb all_renames old_var (new_var, conf)
                      else all_renames
    | None => Dict.set String.eqb all_renames old_var (new_var, conf)
    end) stage all_renames.

(** [_detect_variable_renames(old_lines, new_lines)] *)
Definition detect_variable_renames (st : state) (old_lines new_lines : list string) : state :=
  let old_ctx := build_contexts old_lines (method_boundaries_old st) in
  let new_ctx := build_contexts new_lines (method_boundaries_new st) in
  let all_renames := find_variable_renames_by_context old_ctx new_ctx in
  let all_renames := merge_renames all_renames (find_variable_renames_by_pattern old_ctx new_ctx) in
  let all_renames := merge_renames all_renames (find_variable_renames_by_semantic_similarity old_ctx new_ctx) in
  let all_renames := merge_renames all_renames (find_paired_variable_renames old_ctx new_ctx) in
  let validated :=
    fold_left (fun validated '(old_var, (new_var, confidence)) =>
                 if qgt confidence (7 # 10)
                    && validate_rename old_ctx new_ctx old_var new_var old_lines new_lines
                 then Dict.set String.eqb validated old_var new_var else validated)
              all_renames [] in
  {| structural_changes := structural_changes st; variable_renames := validated;
     method_boundaries_old := method_boundaries_old st;
     method_boundaries_new := method_boundaries_new st;
     field_usage_replacements := field_usage_replacements st;
     old_lines_cache := old_lines_cache st;
     logic_rewrites := logic_rewrites st; semantic_patterns := semantic_patterns st |}.

(** *** Logic rewrites and semantic patterns *)

(** The counters of [_analyze_control_flow] that the matcher reads:
    ['early_returns'], ['conditional_blocks'] and ['null_checks']. *)
Record flow := { early_returns : nat; conditional_blocks : nat; null_checks : nat }.

(** [_analyze_control_flow(method_lines)], with its [brace_level]. *)
Definition analyze_control_flow (method_lines : list string) : flow :=
  let '(f, _) :=
    fold_left (fun '(f, brace_level) line =>
      let stripped := Str.strip line in
      let er := if Str.contains stripped "return" && Z.ltb 0 brace_level
                then S (early_returns f) else early_returns f in
      let cb := if existsb (Str.contains stripped) ["if"; "else"; "for"; "while"]%string
                then S (conditional_blocks f) else conditional_blocks f in
      let nc := if Str.contains stripped "!= null" || Str.contains stripped "== null"
                then S (null_checks f) else null_checks f in
      let brace_level := (brace_level + Z.of_nat (Str.count_char line lbrace)
                          - Z.of_nat (Str.count_char line rbrace))%Z in
      ({| early_returns := er; conditional_blocks := cb; null_checks := nc |}, brace_level))
    method_lines ({| early_returns := 0; conditional_blocks := 0; null_checks := 0 |}, 0%Z) in
  f.

(** [abs(a - b) >= 2] *)
Definition differ_by_two (a b : nat) : bool := (2 <=? Nat.max a b - Nat.min a b)%nat.

(** [_is_major_rewrite(old_flow, new_flow)] *)
Definition is_major_rewrite (o n : flow) : bool :=
  differ_by_two (early_returns o) (early_returns n)
  || differ_by_two (conditional_blocks o) (conditional_blocks n).

(** [_calculate_rewrite_confidence(old_flow, new_flow)] *)
Definition calculate_rewrite_confidence (o n : flow) : Q :=
  let c := (if Nat.eqb (early_returns o) (early_returns n) then 0 else 4 # 10)
         + (if Nat.eqb (conditional_blocks o) (conditional_blocks n) then 0 else 3 # 10)
         + (if Nat.eqb (null_checks o) (null_checks n) then 0 else 2 # 10) in
  qmin c 1.

(** [_detect_logic_rewrites(old_lines, new_lines)] *)
Definition detect_logic_rewrites (st : state) (old_lines new_lines : list string) : state :=
  let rewrites :=
    fold_left (fun rewrites '(method_name, (os, oe)) =>
      match Dict.get String.eqb (method_boundaries_new st) method_name with
      | Some (ns, ne) =>
          let old_flow := analyze_control_flow (list_slice old_lines os (S oe)) in
          let new_flow := analyze_control_flow (list_slice new_lines ns (S ne)) in
          if is_major_rewrite old_flow new_flow
          then Dict.set String.eqb rewrites method_name
                 {| old_start := os; new_start := ns;
                    rw_confidence := calculate_rewrite_confidence old_flow new_flow |}
          else rewrites
      | None => rewrites
      end) (method_boundaries_old st) (logic_rewrites st) in
  {| structural_changes := structural_changes st; variable_renames := variable_renames st;
     method_boundaries_old := method_boundaries_old st;
     method_boundaries_new := method_boundaries_new st;
     field_usage_replacements := field_usage_replacements st;
     old_lines_cache := old_lines_cache st;
     logic_rewrites := rewrites; semantic_patterns := semantic_patterns st |}.

(** The three patterns of [_detect_semantic_equivalences]:
    [(\w+)\.id] to [this\.resolvedType\.id];
    [return\s+this\.expressionType\s*=\s*\w+\s*=\s*.*] to
    [return\s+this\.resolvedType];
    [if\s*\(\s*\w+\s*==\s*null\s*\)\s*return\s+null] to
    [if\s*\(\s*\w+\s*!=\s*null\s*\)\s*\{]. *)
Definition builtin_semantic_patterns : list (string * sem_pattern) :=
  [("semantic_field_consolidation"%string,
    {| sp_old := Seq (Grp 1 (plus w)) (lit ".id");
       sp_new := lit "this.resolvedType.id"; sp_confidence := 8 # 10 |});
   ("semantic_return_simplification"%string,
    {| sp_old := seqs [lit "return"; plus sp; lit "this.expressionType"; star sp; lit "="; star sp;
                       plus w; star sp; lit "="; star sp; star Rx.dot];
       sp_new := seqs [lit "return"; plus sp; lit "this.resolvedType"]; sp_confidence := 7 # 10 |});
   ("semantic_conditional_restructuring"%string,
    {| sp_old := seqs [lit "if"; star sp; lit "("; star sp; plus w; star sp; lit "=="; star sp;
                       lit "null"; star sp; lit ")"; star sp; lit "return"; plus sp; lit "null"];
       sp_new := seqs [lit "if"; star sp; lit "("; star sp; plus w; star sp; lit "!="; star sp;
                       lit "null"; star sp; lit ")"; star sp; lit "{"];
       sp_confidence := 6 # 10 |})].

(** [_detect_semantic_equivalences(old_lines, new_lines)] *)
Definition detect_semantic_equivalences (st : state) : state :=
  {| structural_changes := structural_changes st; variable_renames := variable_renames st;
     method_boundaries_old := method_boundaries_old st;
     method_boundaries_new := method_boundaries_new st;
     field_usage_replacements := field_usage_replacements st;
     old_lines_cache := old_lines_cache st; logic_rewrites := logic_rewrites st;
     semantic_patterns :=
       fold_left (fun d '(k, p) => Dict.set String.eqb d k p) builtin_semantic_patterns
                 (semantic_patterns st) |}.

(** [detect_structural_changes(old_lines, new_lines)] *)
Definition detect_structural_changes (st : state) (old_lines new_lines : list string) : option state :=
  let st := {| structural_changes := structural_changes st; variable_renames := variable_renames st;
               method_boundaries_old := find_method_boundaries old_lines;
               method_boundaries_new := find_method_boundaries new_lines;
               field_usage_replacements := field_usage_replacements st;
               old_lines_cache := old_lines; logic_rewrites := logic_rewrites st;
               semantic_patterns := semantic_patterns st |} in
  let st := detect_field_changes st old_lines new_lines in
  match detect_field_usage_replacements st old_lines new_lines with
  | None => None
  | Some st =>
      let st := detect_variable_renames st old_lines new_lines in
      let st := detect_logic_rewrites st old_lines new_lines in
      Some (detect_semantic_equivalences st)
  end.

(** *** [best_match_for_each_line] *)

Definition match_dict := list (nat * (nat * Q)).

(** [lines[i]] at an index known to be in range. *)
Definition line_at (lines : list string) (i : nat) : string := nth i lines EmptyString.

(** [int(x)]: truncation toward zero *)
Definition py_int (q : Q) : Z := Z.quot (Qnum q) (Zpos (Qden q)).

(** [control_flow]: [\b(?:if|else|for|while|return|switch|case)\b] *)
Definition control_flow_re : regex :=
  seqs [WordB; alts [lit "if"; lit "else"; lit "for"; lit "while"; lit "return"; lit "switch"; lit "case"];
        WordB].

(** [_is_control_flow_line(line)] *)
Definition is_control_flow_line (line : string) : bool := search control_flow_re line.

Section Passes.
(** [similarity_matrix[i][j]], [candidate_sets.get(i, [])] and the two sides. *)
Variable sim : nat -> nat -> Q.
Variable cands : nat -> list nat.
Variable old_lines new_lines : list string.

Definition n_old : nat := List.length old_lines.
Definition n_new : nat := List.length new_lines.

(** Pass 1: the first unused candidate of similarity above [0.95]. *)
Definition pass1 (mu : match_dict * list nat) : match_dict * list nat :=
  fold_left (fun '(m, used) i =>
    match find (fun j => qgt (sim i j) (95 # 100) && negb (in_nat j used)) (cands i) with
    | Some j => (Dict.set Nat.eqb m i (j, sim i j), j :: used)
    | None => (m, used)
    end) (range 0 n_old) mu.

(** Passes 2 and 5 take the proposals of a structural analysis in order,
    each kept when its old line is unmatched and its new line unused. *)
Definition add_proposals (proposals : match_dict) (mu : match_dict * list nat) : match_dict * list nat :=
  fold_left (fun '(m, used) '(old_idx, (new_idx, score)) =>
    if negb (Dict.mem Nat.eqb m old_idx) && negb (in_nat new_idx used)
    then (Dict.set Nat.eqb m old_idx (new_idx, score), new_idx :: used)
    else (m, used)) proposals mu.

(** Pass 3: a control-flow line takes the unused control-flow candidate of
    raw similarity above [0.6] with the best score [sim * (1 - |i - j| / 15)]. *)
Definition pass3 (mu : match_dict * list nat) : match_dict * list nat :=
  fold_left (fun '(m, used) i =>
    if Dict.mem Nat.eqb m i then (m, used)
    else
      let old_line := line_at old_lines i in
      if is_control_flow_line old_line || Str.contains old_line "return" then
        match best_over (fun j =>
                if in_nat j used then None
                else
                  let new_line := line_at new_lines j in
                  if (is_control_flow_line new_line || Str.contains new_line "return")
                     && qgt (sim i j) (6 # 10)
                  then Some (sim i j * (1 - dist i j / 15)) else None) 0 (cands i) with
        | (Some j, best_score) => (Dict.set Nat.eqb m i (j, best_score), j :: used)
        | (None, _) => (m, used)
        end
      else (m, used)) (range 0 n_old) mu.

(** Pass 4: the unused candidate within ten lines with the best score
    [sim * (1 - |i - j| / 25)] above [0.5]. *)
Definition pass4 (mu : match_dict * list nat) : match_dict * list nat :=
  fold_left (fun '(m, used) i =>
    if Dict.mem Nat.eqb m i then (m, used)
    else
      match best_over (fun j =>
              if in_nat j used then None
              else if negb (in_nat j (cands i)) then None
              else Some (sim i j * (1 - dist i j / 25)))
            (5 # 10) (range (i - 10) (Nat.min n_new (i + 11))) with
      | (Some j, best_score) => (Dict.set Nat.eqb m i (j, best_score), j :: used)
      | (None, _) => (m, used)
      end) (range 0 n_old) mu.

(** Pass 6: the unused candidate of best similarity above [0.3]. *)
Definition pass6 (mu : match_dict * list nat) : match_dict * list nat :=
  fold_left (fun '(m, used) i =>
    if Dict.mem Nat.eqb m i then (m, used)
    else
      match best_over (fun j => if in_nat j used then None else Some (sim i j)) (3 # 10) (cands i) with
      | (Some j, best_score) => (Dict.set Nat.eqb m i (j, best_score), j :: used)
      | (None, _) => (m, used)
      end) (range 0 n_old) mu.

(** Pass 7: the candidate of best similarity, used or not, kept above [0.2];
    [used_new_indices] is not updated. The floor [0] of [best_over] is implied
    by [score > best_score] from [best_score = 0.0]. *)
Definition pass7 (mu : match_dict * list nat) : match_dict * list nat :=
  fold_left (fun '(m, used) i =>
    if Dict.mem Nat.eqb m i then (m, used)
    else
      match best_over (fun j => Some (sim i j)) 0 (cands i) with
      | (Some j, best_score) =>
          if qgt best_score (2 # 10) then (Dict.set Nat.eqb m i (j, best_score), used) else (m, used)
      | (None, _) => (m, used)
      end) (range 0 n_old) mu.

End Passes.

(** [_find_enhanced_structural_matches(old_lines, new_lines, similarity_matrix,
    candidate_sets)]; its [self.old_lines_cache = old_lines] stores the value
    [detect_structural_changes] stored already. *)
Definition find_enhanced_structural_matches (st : state) (sim : nat -> nat -> Q) (cands : nat -> list nat)
    (old_lines new_lines : list string) : match_dict :=
  (* 1. field replacements *)
  let sm :=
    fold_left (fun sm '(old_idx, info) =>
      let rl := replacement_line info in
      if (rl <? List.length new_lines)%nat then
        let score := combined_similarity (line_at old_lines old_idx) (line_at new_lines rl) "" "" in
        let min_score := (4 # 10) + repl_confidence info * (5 # 10) in
        let boosted_score := qmax score min_score in
        if qgt boosted_score (4 # 10) then Dict.set Nat.eqb sm old_idx (rl, qmin boosted_score 1) else sm
      else sm) (field_usage_replacements st) [] in
  (* 2. logic rewrites *)
  let sm :=
    fold_left (fun sm '(method_name, info) =>
      match Dict.get String.eqb (method_boundaries_old st) method_name,
            Dict.get String.eqb (method_boundaries_new st) method_name with
      | Some (oms, ome), Some (nms, nme) =>
          let old_size := (Z.of_nat ome - Z.of_nat oms)%Z in
          let new_size := (Z.of_nat nme - Z.of_nat nms)%Z in
          fold_left (fun sm old_idx =>
            if Dict.mem Nat.eqb sm old_idx then sm
            else
              let relative_pos := inject_Z (Z.of_nat old_idx - Z.of_nat oms) / inject_Z (Z.max 1 old_size) in
              let expected_new_idx := (Z.of_nat nms + py_int (relative_pos * inject_Z new_size))%Z in
              let search_start := Z.max (Z.of_nat nms) (expected_new_idx - 10) in
              let search_end := Z.min (Z.of_nat nme) (expected_new_idx + 11) in
              match best_over (fun new_idx =>
                      if negb (in_nat new_idx (cands old_idx)) then None
                      else Some (qmin 1 (sim old_idx new_idx + rw_confidence info * (3 # 10))))
                    (4 # 10) (range (Z.to_nat search_start) (Z.to_nat search_end)) with
              | (Some best_new_idx, best_score) => Dict.set Nat.eqb sm old_idx (best_new_idx, best_score)
              | (None, _) => sm
              end) (range oms (S ome)) sm
      | _, _ => sm
      end) (logic_rewrites st) sm in
  (* 3. semantic patterns *)
  fold_left (fun sm '(old_idx, old_line) =>
    if Dict.mem Nat.eqb sm old_idx then sm
    else
      fold_left (fun sm '(_, p) =>
        if search (sp_old p) old_line then
          let taken := map (fun '(_, (n, _)) => n) sm in
          let boosted new_idx :=
            let base_score := if in_nat new_idx (cands old_idx) then sim old_idx new_idx else 3 # 10 in
            qmin 1 (base_score + sp_confidence p * (4 # 10)) in
          match find (fun '(new_idx, new_line) =>
                        negb (in_nat new_idx taken) && search (sp_new p) new_line
                        && qgt (boosted new_idx) (5 # 10))
                     (SimhashIndex.enumerate new_lines) with
          | Some (new_idx, _) => Dict.set Nat.eqb sm old_idx (new_idx, boosted new_idx)
          | None => sm
          end
        else sm) (semantic_patterns st) sm) (SimhashIndex.enumerate old_lines) sm.

(** [_find_remaining_structural_matches(...)] *)
Definition find_remaining_structural_matches (st : state) (old_lines new_lines : list string)
    (existing_matches : match_dict) (used_new_indices : list nat) : match_dict :=
  fold_left (fun rm '(old_idx, info) =>
    if Dict.mem Nat.eqb existing_matches old_idx then rm
    else
      let rl := replacement_line info in
      if negb (in_nat rl used_new_indices) && (rl <? List.length new_lines)%nat then
        let score := combined_similarity (line_at old_lines old_idx) (line_at new_lines rl) "" "" in
        let min_score := (4 # 10) + repl_confidence info * (5 # 10) in
        let boosted_score := qmax score min_score in
        if qgt boosted_score (4 # 10) then Dict.set Nat.eqb rm old_idx (rl, qmin boosted_score 1) else rm
      else rm) (field_usage_replacements st) [].

(** [similarity_matrix]: the row of each key of [candidate_sets], with the
    similarity of each candidate; every other entry is [0.0]. *)
Definition similarity_matrix (old_lines new_lines : list string) (candidate_sets : list (nat * list nat))
    : list (nat * list (nat * Q)) :=
  map (fun '(old_idx, candidates) =>
         (old_idx, map (fun new_idx =>
                          (new_idx, combined_similarity (line_at old_lines old_idx) (line_at new_lines new_idx)
                                      (build_context old_lines old_idx 2)
                                      (build_context new_lines new_idx 2))) candidates))
      candidate_sets.

Definition matrix_get (mx : list (nat * list (nat * Q))) (i j : nat) : Q :=
  match Dict.get Nat.eqb mx i with
  | Some row => match Dict.get Nat.eqb row j with Some q => q | None => 0 end
  | None => 0
  end.

Definition cands_get (candidate_sets : list (nat * list nat)) (i : nat) : list nat :=
  match Dict.get Nat.eqb candidate_sets i with Some l => l | None => [] end.

(** The [IndexError] of a candidate set naming a line outside either side. *)
Definition candidates_in_range (n_old n_new : nat) (candidate_sets : list (nat * list nat)) : bool :=
  forallb (fun '(i, l) => (i <? n_old)%nat && forallb (fun j => (j <? n_new)%nat) l) candidate_sets.

(** [best_match_for_each_line(old_lines, new_lines, candidate_sets, threshold)]:
    the matcher's state afterwards and the matches. [threshold] is not read. *)
Definition best_match_for_each_line (st : state) (old_lines new_lines : list string)
    (candidate_sets : list (nat * list nat)) (threshold : Q) : option (state * match_dict) :=
  let st := match method_boundaries_old st, method_boundaries_new st with
            | _ :: _, _ :: _ => st
            | _, _ =>
                {| structural_changes := structural_changes st; variable_renames := variable_renames st;
                   method_boundaries_old := find_method_boundaries old_lines;
                   method_boundaries_new := find_method_boundaries new_lines;
                   field_usage_replacements := field_usage_replacements st;
                   old_lines_cache := old_lines_cache st; logic_rewrites := logic_rewrites st;
                   semantic_patterns := semantic_patterns st |}
            end in
  match detect_structural_changes st old_lines new_lines with
  | None => None
  | Some st =>
      if negb (candidates_in_range (List.length old_lines) (List.length new_lines) candidate_sets)
      then None
      else
        let mx := similarity_matrix old_lines new_lines candidate_sets in
        let sim := matrix_get mx in
        let cands := cands_get candidate_sets in
        let mu := pass1 sim cands old_lines ([], []) in
        let mu := add_proposals (find_enhanced_structural_matches st sim cands old_lines new_lines) mu in
        let mu := pass3 sim cands old_lines new_lines mu in
        let mu := pass4 sim cands old_lines new_lines mu in
        let mu := add_proposals (find_remaining_structural_matches st old_lines new_lines (fst mu) (snd mu)) mu in
        let mu := pass6 sim cands old_lines mu in
        let mu := pass7 sim cands old_lines mu in
        Some (st, fst mu)
  end.

(** *** [resolve_conflicts] *)

(** [_is_semantically_reasonable_match(old_idx, new_idx, new_lines)] *)
Definition is_semantically_reasonable_match (old_idx new_idx : nat) (new_lines : list string) : option bool :=
  match getitem new_lines new_idx with
  | None => None
  | Some line =>
      let new_line := Str.strip line in
      let nonsense :=
        (Str.startswith new_line "public " && Str.contains new_line ";")
        || Str.startswith new_line "import "
        || in_str new_line ["{"; "}"; "};"]%string
        || (String.length new_line <? 10)%nat
        || (Str.contains new_line "}" && negb (Str.contains new_line "{") && negb (Str.contains new_line "class")) in
      Some (negb nonsense)
  end.

(** The offsets [-15 .. 15] without [0] *)
Definition offsets : list Z :=
  map (fun k => (Z.of_nat k - 15)%Z) (seq 0 15) ++ map (fun k => Z.of_nat k + 1)%Z (seq 0 15).

(** [_find_valid_alternative(original_new_idx, new_lines, old_idx,
    resolved_matches)]: the first line nearby that no resolved match takes. *)
Definition find_valid_alternative (original_new_idx : nat) (new_lines : list string) (old_idx : nat)
    (resolved_matches : match_dict) : option nat :=
  let fix go (offs : list Z) : option nat :=
    match offs with
    | [] => None
    | off :: offs' =>
        let test_idx := (Z.of_nat original_new_idx + off)%Z in
        if Z.leb 0 test_idx && Z.ltb test_idx (Z.of_nat (List.length new_lines)) then
          if existsb (fun '(_, (n, _)) => Nat.eqb n (Z.to_nat test_idx)) resolved_matches then go offs'
          else
            match is_semantically_reasonable_match old_idx (Z.to_nat test_idx) new_lines with
            | Some true => Some (Z.to_nat test_idx)
            | _ => go offs'
            end
        else go offs'
    end in
  go offsets.

(** [new_to_old]: the old lines of each new line, in order of first appearance. *)
Definition group_by_new (matches : match_dict) : list (nat * list (nat * Q)) :=
  fold_left (fun d '(old_idx, (new_idx, score)) =>
    let items := match Dict.get Nat.eqb d new_idx with Some l => l | None => [] end in
    Dict.set Nat.eqb d new_idx (items ++ [(old_idx, score)])) matches [].

(** [sorted(items, key=score, reverse=True)]: stable, by decreasing score. *)
Fixpoint insert_desc (x : nat * Q) (l : list (nat * Q)) : list (nat * Q) :=
  match l with
  | [] => [x]
  | y :: l' => if qgt (snd x) (snd y) then x :: l else y :: insert_desc x l'
  end.

Definition sort_desc (l : list (nat * Q)) : list (nat * Q) :=
  fold_left (fun acc x => insert_desc x acc) l [].

(** [resolve_conflicts(matches, new_lines)]; [None] is the [IndexError] of a
    contested new line outside [new_lines]. *)
Definition resolve_conflicts (st : state) (matches : match_dict) (new_lines : list string)
    : option match_dict :=
  fold_left (fun acc '(new_idx, old_items) =>
    match acc with
    | None => None
    | Some resolved =>
        match old_items with
        | [(old_idx, score)] => Some (Dict.set Nat.eqb resolved old_idx (new_idx, score))
        | _ =>
            match sort_desc old_items with
            | [] => Some resolved
            | (best_old_idx, best_score) :: losers =>
                let resolved := Dict.set Nat.eqb resolved best_old_idx (new_idx, best_score) in
                fold_left (fun acc '(old_idx, score) =>
                  match acc with
                  | None => None
                  | Some resolved =>
                      let is_structural := Dict.mem Nat.eqb (field_usage_replacements st) old_idx in
                      let is_high_confidence := qgt score (8 # 10) in
                      let has_sufficient_distance :=
                        (5 <? Nat.max old_idx best_old_idx - Nat.min old_idx best_old_idx)%nat in
                      match is_semantically_reasonable_match old_idx new_idx new_lines with
                      | None => None
                      | Some is_semantically_reasonable =>
                          if (is_structural || is_high_confidence) && has_sufficient_distance
                             && is_semantically_reasonable then
                            match find_valid_alternative new_idx new_lines old_idx resolved with
                            | Some nearby_new =>
                                if negb (Nat.eqb nearby_new new_idx)
                                then Some (Dict.set Nat.eqb resolved old_idx (nearby_new, score))
                                else Some resolved
                            | None => Some resolved
                            end
                          else Some resolved
                      end
                  end) losers (Some resolved)
            end
        end
    end) (group_by_new matches) (Some []).

(** *** [detect_reorders] and [detect_line_splits] *)

(** [_apply_rename_adjustment(line)] *)
Definition apply_rename_adjustment (st : state) (line : string) : string :=
  fold_left (fun adjusted '(old_name, new_name) => sub (word_re old_name) new_name adjusted)
            (variable_renames st) line.

(** [detect_reorders(old_lines, new_lines, matches, threshold)]: every
    unmatched old line but the removed field's declaration takes the free new
    line of best similarity, with or without the renames applied, in the
    range of its method or sixty lines around it, kept at [threshold] or
    above. The batches of a hundred lines visit the old lines in order. *)
Definition detect_reorders (st : state) (old_lines new_lines : list string) (matches : match_dict)
    (threshold : Q) : match_dict :=
  let matched_new := map (fun '(_, (n, _)) => n) matches in
  let bo := method_boundaries_old st in
  let bn := method_boundaries_new st in
  let '(extra_matches, _) :=
    fold_left (fun '(extra, matched_new) old_idx =>
      if Dict.mem Nat.eqb matches old_idx then (extra, matched_new)
      else
        let old_method := get_method_context old_lines old_idx bo in
        let old_line := line_at old_lines old_idx in
        if match structural_changes st with Some (i, _) => Nat.eqb old_idx i | None => false end
        then (extra, matched_new)
        else
          let search_range :=
            match Dict.get String.eqb bn old_method with
            | Some (s, e) => range (s - 25) (Nat.min (List.length new_lines) (e + 26))
            | None => range (old_idx - 60) (Nat.min (List.length new_lines) (old_idx + 61))
            end in
          match best_over (fun new_idx =>
                  if in_nat new_idx matched_new then None
                  else
                    let new_method := get_method_context new_lines new_idx bn in
                    if negb (String.eqb old_method "global") && negb (String.eqb new_method "global")
                       && negb (String.eqb old_method new_method) then None
                    else
                      let new_line := line_at new_lines new_idx in
                      let score := combined_similarity old_line new_line "" "" in
                      let adjusted_score :=
                        combined_similarity (apply_rename_adjustment st old_line)
                                            (apply_rename_adjustment st new_line) "" "" in
                      Some (qmax score adjusted_score)) 0 search_range with
          | (Some best_new_idx, best_score) =>
              if Qle_bool threshold best_score
              then (Dict.set Nat.eqb extra old_idx (best_new_idx, best_score), best_new_idx :: matched_new)
              else (extra, matched_new)
          | (None, _) => (extra, matched_new)
          end) (range 0 (List.length old_lines)) ([], matched_new) in
  matches ++ extra_matches.

Definition is_brace_line (s : string) : bool := in_str s ["{"; "}"; "};"]%string.

(** [_is_likely_split_candidate(old_line, new_lines, start_idx)] *)
Definition is_likely_split_candidate (old_line : string) (new_lines : list string) (start_idx : nat)
    : option bool :=
  match getitem new_lines start_idx with
  | None => None
  | Some line =>
      let current_text := Str.strip line in
      let lo := String.length old_line in
      let lc := String.length current_text in
      Some
        (if (lo <? 20)%nat || (lc <? 10)%nat then false
         else if is_brace_line old_line || is_brace_line current_text then false
         else if Str.startswith old_line "import " || Str.startswith old_line "public "
                 || Str.startswith old_line "private " then false
         else if qgt (combined_similarity old_line current_text "" "") (9 # 10) then false
         else
           qgt (qn lo * (6 # 10)) (qn lc)
           || (Str.endswith old_line ";" && negb (Str.endswith current_text ";"))
           || (Str.contains old_line ";" && (1 <? Str.count_char old_line ";"%char)%nat
               && negb (Str.contains current_text ";"))
           || ((Str.contains old_line "=" && Str.contains old_line "(") && (40 <? lo)%nat))
  end.

(** [_extend_split_group_safely(old_line, new_lines, start_idx,
    threshold_increase)]: following lines join the group while each raises the
    similarity by more than [max(threshold_increase, 0.05)]. *)
Definition extend_split_group_safely (old_line : string) (new_lines : list string) (start_idx : nat)
    (threshold_increase : Q) : list nat :=
  let combined_text := Str.strip (line_at new_lines start_idx) in
  let best_score := combined_similarity old_line combined_text "" "" in
  let max_split_size := Nat.min 5 (String.length old_line / 20) in
  let fix go (idxs : list nat) (group : list nat) (combined_text : string) (best_score : Q) :=
    match idxs with
    | [] => group
    | next_idx :: idxs' =>
        let next_line := Str.strip (line_at new_lines next_idx) in
        if String.eqb next_line EmptyString || is_brace_line next_line
        then go idxs' group combined_text best_score
        else
          let test_combined := (combined_text ++ " " ++ next_line)%string in
          let test_score := combined_similarity old_line test_combined "" "" in
          if qgt test_score (best_score + qmax threshold_increase (5 # 100))
          then go idxs' (group ++ [next_idx]) test_combined test_score
          else group
    end in
  go (range (S start_idx) (Nat.min (start_idx + max_split_size + 1) (List.length new_lines)))
     [start_idx] combined_text best_score.

(** [\b\w+\b] *)
Definition word_token_re : regex := seqs [WordB; plus w; WordB].

(** [_validate_split(old_line, split_group, new_lines)] *)
Definition validate_split (old_line : string) (split_group : list nat) (new_lines : list string) : bool :=
  if (List.length split_group <? 2)%nat then false
  else
    let combined_text := Str.join " " (map (fun idx => Str.strip (line_at new_lines idx)) split_group) in
    let best_individual_score :=
      fold_left (fun b idx => qmax b (combined_similarity old_line (Str.strip (line_at new_lines idx)) "" ""))
                split_group 0 in
    let combined_score := combined_similarity old_line combined_text "" "" in
    if qgt (best_individual_score + (1 # 10)) combined_score then false
    else
      let old_tokens := fold_left set_add (findall word_token_re (Str.lower old_line)) [] in
      let combined_tokens := fold_left set_add (findall word_token_re (Str.lower combined_text)) [] in
      let token_overlap := List.length (set_inter old_tokens combined_tokens) in
      if qgt (qn (List.length old_tokens) * (6 # 10)) (qn token_overlap) then false else true.

(** [detect_line_splits(old_lines, new_lines, matches, threshold_increase)]:
    the new lines of each old line; [None] is the [IndexError] of a match
    outside either side. *)
Definition detect_line_splits (old_lines new_lines : list string) (matches : match_dict)
    (threshold_increase : Q) : option (list (nat * list nat)) :=
  fold_left (fun acc '(old_idx, (new_idx, _)) =>
    match acc, getitem old_lines old_idx with
    | Some updated, Some raw_old =>
        let old_line := Str.strip raw_old in
        match is_likely_split_candidate old_line new_lines new_idx with
        | None => None
        | Some likely =>
            let group :=
              if likely then
                let extended_group := extend_split_group_safely old_line new_lines new_idx threshold_increase in
                if (1 <? List.length extended_group)%nat && validate_split old_line extended_group new_lines
                then extended_group else [new_idx]
              else [new_idx] in
            Some (Dict.set Nat.eqb updated old_idx group)
        end
    | _, _ => None
    end) matches (Some []).

(** *** The pipeline with its default parameters

    [generate_candidate_sets(old, new)] ([k = 15]), then on one matcher
    [best_match_for_each_line] ([threshold = 0.45]), [resolve_conflicts],
    [detect_reorders] ([threshold = 0.4]) and [detect_line_splits]
    ([threshold_increase = 0.01]). *)
Definition pipeline_from_candidates (old_lines new_lines : list string)
    (candidate_sets : list (nat * list nat)) : option (list (nat * list nat)) :=
  match best_match_for_each_line init old_lines new_lines candidate_sets (45 # 100) with
  | None => None
  | Some (st, matches) =>
      match resolve_conflicts st matches new_lines with
      | None => None
      | Some resolved =>
          let reordered := detect_reorders st old_lines new_lines resolved (4 # 10) in
          detect_line_splits old_lines new_lines reordered (1 # 100)
      end
  end.

Definition pipeline (compute_simhash : string -> N) (old_lines new_lines : list string)
    : option (list (nat * list nat)) :=
  pipeline_from_candidates old_lines new_lines
    (SimhashIndex.generate_candidate_sets compute_simhash old_lines new_lines 15).

(** The identity mapping [{i: [i]}] of a side. *)
Definition identity_mapping (lines : list string) : list (nat * list nat) :=
  map (fun i => (i, [i])) (seq 0 (List.length lines)).

End Matcher.

Module Evaluator.
Import Matcher.

(** The values of a mapping dictionary that [expand_pairs] distinguishes:
    a list, a tuple, an [int], and anything else. *)
Inductive mapped : Type :=
| MList (ns : list nat)
| MTuple (ns : list nat)
| MInt (n : nat)
| MOther.

Definition pair_eqb (p q : nat * nat) : bool :=
  Nat.eqb (fst p) (fst q) && Nat.eqb (snd p) (snd q).

Definition pair_mem (p : nat * nat) (s : list (nat * nat)) : bool := existsb (pair_eqb p) s.

(** [pairs.add(p)] on a Python set *)
Definition pair_add (s : list (nat * nat)) (p : nat * nat) : list (nat * nat) :=
  if pair_mem p s then s else s ++ [p].

(** [expand_pairs(mapping)]: [None] is the [IndexError] of [mapped[0]] on an
    empty tuple. *)
Definition expand_pairs (mapping : list (nat * mapped)) : option (list (nat * nat)) :=
  fold_left (fun acc '(old_idx, m) =>
    match acc with
    | None => None
    | Some pairs =>
        match m with
        | MList ns => Some (fold_left (fun s n => pair_add s (old_idx, n)) ns pairs)
        | MTuple (n :: _) => Some (pair_add pairs (old_idx, n))
        | MTuple [] => None
        | MInt n => Some (pair_add pairs (old_idx, n))
        | MOther => Some pairs
        end
    end) mapping (Some []).

(** [evaluate_mapping(predicted, ground_truth)] *)
Definition evaluate_mapping (predicted ground_truth : list (nat * mapped)) : option (Q * Q * Q) :=
  match expand_pairs predicted, expand_pairs ground_truth with
  | Some pred_pairs, Some true_pairs =>
      let true_positive := List.length (filter (fun p => pair_mem p true_pairs) pred_pairs) in
      let false_positive := List.length (filter (fun p => negb (pair_mem p true_pairs)) pred_pairs) in
      let false_negative := List.length (filter (fun p => negb (pair_mem p pred_pairs)) true_pairs) in
      let precision :=
        if Nat.eqb (true_positive + false_positive) 0 then 0
        else qn true_positive / qn (true_positive + false_positive) in
      let recall :=
        if Nat.eqb (true_positive + false_negative) 0 then 0
        else qn true_positive / qn (true_positive + false_negative) in
      let f1 := if Qeq_bool (precision + recall) 0 then 0
                else 2 * precision * recall / (precision + recall) in
      Some (precision, recall, f1)
  | _, _ => None
  end.

End Evaluator.

(** ** Readings of the specification, to compare with the source *)
Module Spec.
Import Rx.

(** The specification's [content_similarity]: identifier tokens become [VAR]
    and integer literals [NUM] in one pass over the original text, so a
    literal is never read as an identifier. Following the specification's
    words, not the source. *)
Definition spec_normalize_code (line : string) : string :=
  sub Similarity.number_re "NUM" (sub Similarity.identifier_re "VAR" line).

Definition spec_content_similarity (a b : string) : Q :=
  if Similarity.is_empty a && Similarity.is_empty b then 1%Q
  else if Similarity.is_empty a || Similarity.is_empty b then 0%Q
  else
    let norm_a := spec_normalize_code a in
    let norm_b := spec_normalize_code b in
    let distance := Similarity.levenshtein norm_a norm_b in
    let max_len := Nat.max (String.length norm_a) (String.length norm_b) in
    (1 - inject_Z (Z.of_nat distance) / inject_Z (Z.of_nat max_len))%Q.

(** The first characters of the comment patterns of [normalize_line]: slash,
    hash and single quote. *)
Definition comment_char (c : ascii) : bool :=
  Ascii.eqb c "/"%char || Ascii.eqb c "#"%char || Ascii.eqb c IO.sq.

(** ... and of the block comment openers besides: the double quote. *)
Definition block_char (c : ascii) : bool := comment_char c || Ascii.eqb c IO.dq.

Definition sp_at (s : list ascii) (j : nat) : bool :=
  match nth_error s j with Some c => is_space c | None => false end.

(** Whitespace only as single blanks between two other characters. *)
Fixpoint single_spaced (l : list ascii) : bool :=
  match l with
  | [] => true
  | c :: l' =>
      (if is_space c
       then Ascii.eqb c " "%char && match l' with d :: _ => negb (is_space d) | [] => false end
       else true) && single_spaced l'
  end.

(** A line in normal form: none of the characters [bad], no whitespace at
    either end, single blanks inside. *)
Definition normal_line (bad : ascii -> bool) (s : string) : bool :=
  forallb (fun c => negb (bad c)) (chars s) && single_spaced (chars s) &&
  match chars s with c :: _ => negb (is_space c) | [] => true end.

(** A pattern that can only start on a character of [bad]. *)
Fixpoint needs_first (bad : ascii -> bool) (r : regex) : Prop :=
  match r with
  | Chr p => forall c, p c = true -> bad c = true
  | Seq r1 _ => needs_first bad r1
  | Alt r1 r2 => needs_first bad r1 /\ needs_first bad r2
  | Grp _ r1 => needs_first bad r1
  | _ => False
  end.

(** The candidate list of a line: the new indices of [nsmallest], by a strict
    lexicographic order on (distance, index). *)
Definition lex_lt (a b : nat * nat) : Prop :=
  snd a < snd b \/ (snd a = snd b /\ fst a < fst b).

(** What the block comment pass keeps: the number of lines, and every empty
    line. *)
Definition keeps_empty (ls ls' : list string) : Prop :=
  List.length ls' = List.length ls /\
  forall k, nth_error ls k = Some EmptyString -> nth_error ls' k = Some EmptyString.

(** Strictly increasing indices. *)
Definition fst_lt (a b : nat * nat) : Prop := fst a < fst b.

(** A line that pass 3 treats as control flow. *)
Definition ctrl_line (l : string) : bool :=
  Matcher.is_control_flow_line l || Str.contains l "return".

(** What a retained score of [best_match_for_each_line] satisfies: above
    [0.2], or it is a pass 3 score, the raw similarity above [0.6] of two
    control-flow lines damped by the distance of their indices. *)
Definition pass_gate (sim : nat -> nat -> Q) (old_lines new_lines : list string)
    (i j : nat) (s : Q) : Prop :=
  Matcher.qgt s (2 # 10) = true \/
  (Matcher.qgt s 0 = true /\ s = (sim i j * (1 - Matcher.dist i j / 15))%Q /\
   Matcher.qgt (sim i j) (6 # 10) = true /\
   ctrl_line (Matcher.line_at old_lines i) = true /\ ctrl_line (Matcher.line_at new_lines j) = true).

(** Every entry of a match dictionary satisfies [P]. *)
Definition all_entries (P : nat -> nat -> Q -> Prop) (m : Matcher.match_dict) : Prop :=
  Forall (fun e => P (fst e) (fst (snd e)) (snd (snd e))) m.

End Spec.

Module ExtraDefs.
Import Rx IO Matcher Spec Evaluator.
Open Scope nat_scope.

(** The substitution cost of one step of [levenshtein]. *)
Definition lev_cost (c d : ascii) : nat := if Ascii.eqb c d then 0 else 1.

(** A row of the [levenshtein] table of a word of length [n], bounded entrywise by [B]. *)
Definition row_bound (n : nat) (B : nat -> nat) (row : list nat) : Prop :=
  List.length row = S n /\ forall j, j <= n -> nth j row 0 <= B j.

(** Where a match kept by [resolve_conflicts] comes from: an input match of the
    same old line and score, with the same new line or one moved at most 15
    lines within the new file. *)
Definition provenance (matches : match_dict) (new_lines : list string) (e : nat * (nat * Q)) : Prop :=
  exists n0, In (fst e, (n0, snd (snd e))) matches /\
    (fst (snd e) = n0 \/
     (fst (snd e) < List.length new_lines /\ fst (snd e) <> n0 /\
      Nat.max (fst (snd e)) n0 - Nat.min (fst (snd e)) n0 <= 15)).

(** The new line of a match. *)
Definition target (e : nat * (nat * Q)) : nat := fst (snd e).

(** A match that [detect_reorders] may add to [matches]. *)
Definition added_ok (matches : match_dict) (old_lines new_lines : list string) (threshold : Q)
    (e : nat * (nat * Q)) : Prop :=
  Dict.mem Nat.eqb matches (fst e) = false /\ fst e < List.length old_lines /\
  ~ In (target e) (map target matches) /\ target e < List.length new_lines /\
  (threshold <= snd (snd e))%Q.

(** A group of [detect_line_splits] for an old line of [matches]. *)
Definition split_group_ok (matches : match_dict) (new_lines : list string) (e : nat * list nat) : Prop :=
  exists n s rest, In (fst e, (n, s)) matches /\ snd e = n :: rest /\
    StronglySorted lt (snd e) /\ Forall (fun j => j < List.length new_lines) (snd e) /\
    List.length (snd e) <= 6.

(** The pairs that [expand_pairs] takes from one item of a mapping. *)
Definition pairs_of (o : nat) (m : mapped) : list (nat * nat) :=
  match m with
  | MList ns => map (pair o) ns
  | MTuple (n :: _) => [(o, n)]
  | MTuple [] => []
  | MInt n => [(o, n)]
  | MOther => []
  end.

End ExtraDefs.

(** * Properties *)
Module Proofs.
Import Rx IO Matcher Spec.
Open Scope nat_scope.

(** ** The block comment pass and the line normaliser *)

Lemma set_nth_length {A} (l : list A) i v : List.length (set_nth l i v) = List.length l.
Proof. revert i; induction l as [|x l IH]; intros [|i]; simpl; auto. Qed.

Lemma nth_error_set_nth_other {A} (l : list A) i j v :
  i <> j -> nth_error (set_nth l i v) j = nth_error l j.
Proof.
  revert i j; induction l as [|x l IH]; intros [|i] [|j] H; simpl; auto; try congruence.
Qed.

Lemma nth_error_set_nth_same {A} (l : list A) i v :
  i < List.length l -> nth_error (set_nth l i v) i = Some v.
Proof.
  revert i; induction l as [|x l IH]; intros [|i] H; simpl in *; try lia; auto.
  apply IH; lia.
Qed.

Lemma keeps_empty_refl ls : keeps_empty ls ls.
Proof. split; auto. Qed.

Lemma keeps_empty_trans a b c : keeps_empty a b -> keeps_empty b c -> keeps_empty a c.
Proof. intros [H1 H2] [H3 H4]; split; [congruence | auto]. Qed.

Lemma keeps_empty_set_nth ls i v :
  (nth_error ls i = Some EmptyString -> v = EmptyString) -> keeps_empty ls (set_nth ls i v).
Proof.
  intros Hv; split; [apply set_nth_length|].
  intros k Hk. destruct (Nat.eq_dec i k) as [<-|Hne].
  - rewrite (Hv Hk). apply nth_error_set_nth_same.
    apply nth_error_Some; congruence.
  - rewrite nth_error_set_nth_other; auto.
Qed.

Lemma search_closer_empty : search block_closer EmptyString = false.
Proof. reflexivity. Qed.

Lemma search_opener_empty : search block_opener EmptyString = false.
Proof. reflexivity. Qed.

Lemma erase_until_closer_keeps fuel i ls j ls' :
  erase_until_closer fuel i ls = Some (j, ls') ->
  keeps_empty ls ls' /\ exists l, nth_error ls' j = Some l /\ search block_closer l = true.
Proof.
  revert i ls; induction fuel as [|f IH]; intros i ls H; simpl in H; [discriminate|].
  destruct (nth_error ls i) as [l|] eqn:Hl; [|discriminate].
  destruct (search block_closer l) eqn:Hs.
  - injection H as <- <-. split; [apply keeps_empty_refl | eauto].
  - destruct (IH _ _ H) as [Hk Hj]. split; [|exact Hj].
    eapply keeps_empty_trans; [|exact Hk]. apply keeps_empty_set_nth; auto.
Qed.

Lemma block_loop_S f i ls :
  block_loop (S f) i ls =
  if i <? List.length ls then
    match nth_error ls i with
    | None => None
    | Some l =>
        if search block_opener l then
          let ls1 := set_nth ls i (sub opener_tail EmptyString l) in
          match erase_until_closer (S (List.length ls1)) (S i) ls1 with
          | None => None
          | Some (j, ls2) =>
              match nth_error ls2 j with
              | None => None
              | Some lj => block_loop f (S j) (set_nth ls2 j (sub closer_head EmptyString lj))
              end
          end
        else block_loop f (S i) ls
    end
  else Some ls.
Proof. reflexivity. Qed.

Lemma block_loop_keeps fuel i ls out :
  block_loop fuel i ls = Some out -> keeps_empty ls out.
Proof.
  revert i ls; induction fuel as [|f IH]; intros i ls H.
  - injection H as <-; apply keeps_empty_refl.
  - rewrite block_loop_S in H. destruct (i <? List.length ls); [|injection H as <-; apply keeps_empty_refl].
    destruct (nth_error ls i) as [l|] eqn:Hl; [|discriminate].
    destruct (search block_opener l) eqn:Ho; [|exact (IH _ _ H)].
    cbv zeta in H.
    destruct (erase_until_closer _ _ _) as [[j ls2]|] eqn:He; [|discriminate].
    destruct (nth_error ls2 j) as [lj|] eqn:Hj; [|discriminate].
    destruct (erase_until_closer_keeps _ _ _ _ _ He) as [Hk [l' [Hl' Hc]]].
    eapply keeps_empty_trans; [apply keeps_empty_set_nth|].
    { rewrite Hl; intros E; injection E as ->; rewrite search_opener_empty in Ho; discriminate. }
    eapply keeps_empty_trans; [exact Hk|].
    eapply keeps_empty_trans; [apply keeps_empty_set_nth|exact (IH _ _ H)].
    rewrite Hj in Hl'; injection Hl' as <-.
    intros E; rewrite Hj in E; injection E as ->; rewrite search_closer_empty in Hc; discriminate.
Qed.

Lemma normalize_line_empty : normalize_line true false EmptyString = EmptyString.
Proof. reflexivity. Qed.

(** C4: normalisation preserves the line structure. Whenever normalising a
    text succeeds, the result has exactly as many lines as the text read as
    raw lines, and every empty raw line is an empty line of the result. *)
Theorem build_normalized_lines_preserves_lines (text : string) (out : list string) :
  build_normalized_lines text = Some out ->
  List.length out = List.length (read_file text) /\
  (forall i, nth_error (read_file text) i = Some EmptyString -> nth_error out i = Some EmptyString).
Proof.
  unfold build_normalized_lines, normalize_lines, normalize_block_comments.
  intros H; apply block_loop_keeps in H; destruct H as [H1 H2]; split.
  - rewrite H1, length_map; reflexivity.
  - intros i Hi; apply H2. rewrite nth_error_map, Hi; simpl.
    rewrite normalize_line_empty; reflexivity.
Qed.

Lemma build_normalized_lines_preserves_lines_witness :
  build_normalized_lines ("a /* x" ++ String newline (String newline "*/ b"))%string
    = Some ["a "; ""; " b"]%string /\
  List.length ["a "; ""; " b"]%string
    = List.length (read_file ("a /* x" ++ String newline (String newline "*/ b"))%string) /\
  (forall i, nth_error (read_file ("a /* x" ++ String newline (String newline "*/ b"))%string) i
               = Some EmptyString ->
             nth_error ["a "; ""; " b"]%string i = Some EmptyString).
Proof.
  split; [vm_compute; reflexivity|].
  apply (build_normalized_lines_preserves_lines ("a /* x" ++ String newline (String newline "*/ b"))%string).
  vm_compute; reflexivity.
Defined.

(** ** Computed cases *)

(** C1: [resolve_conflicts] is not injective on its 1-to-1 matches. Old lines
    0 and 10 both claim new line 0 and old line 20 alone claims new line 1.
    Line 10 loses the contest for new line 0 and is moved to the nearby new
    line 1: the alternative search consults only the groups resolved so far,
    and new line 1 is resolved later. So new index 1 ends up matched by old
    lines 10 and 20. *)
Theorem resolve_conflicts_not_injective :
  exists r,
    resolve_conflicts init
      [(0, (0, (9 # 10)%Q)); (10, (0, (85 # 100)%Q)); (20, (1, (9 # 10)%Q))]
      ["x = alpha + 1"; "y = beta + 2"]%string = Some r /\
    Dict.get Nat.eqb r 10 = Some (1, (85 # 100)%Q) /\
    Dict.get Nat.eqb r 20 = Some (1, (9 # 10)%Q).
Proof. eexists; split; [vm_compute; reflexivity | split; vm_compute; reflexivity]. Qed.

(** C3: normalisation is not total. A text whose only line opens a block
    comment that is never closed makes the inner loop of
    [normalize_block_comments] read past the last line, which raises
    [IndexError]. *)
Theorem build_normalized_lines_unterminated_block :
  build_normalized_lines "/* unterminated"%string = None.
Proof. vm_compute; reflexivity. Qed.

(** C5: the source replaces integer literals by [NUM] and then every
    identifier, the fresh [NUM] tokens included, by [VAR]. So [x = 5] and
    [x = y] both normalise to [VAR = VAR] and score 1. The specification's
    normalisation gives [VAR = NUM] and [VAR = VAR], at Levenshtein distance 3
    over 9 characters, which scores 2/3. *)
Theorem content_similarity_literal_as_identifier :
  (Similarity.content_similarity "x = 5" "x = y" == 1)%Q /\
  (spec_content_similarity "x = 5" "x = y" == 2 # 3)%Q.
Proof. split; vm_compute; reflexivity. Qed.

(** C10: [best_match_for_each_line] never reads its [threshold] argument.
    Any two thresholds give the same result. *)
Theorem best_match_threshold_irrelevant (st : state) (old_lines new_lines : list string)
    (candidate_sets : list (nat * list nat)) (t1 t2 : Q) :
  best_match_for_each_line st old_lines new_lines candidate_sets t1 =
  best_match_for_each_line st old_lines new_lines candidate_sets t2.
Proof. reflexivity. Qed.

(** ** Lines the normaliser leaves as they are *)

Lemma mt_needs_first bad r s :
  needs_first bad r -> (forall c, In c s -> bad c = false) ->
  forall i g k, mt r s i g k = None.
Proof.
  intros Hr Hs; induction r; intros i g k; simpl in *; try contradiction.
  - destruct (nth_error s i) as [c|] eqn:Hc; [|reflexivity].
    destruct (p c) eqn:Hp; [|reflexivity].
    apply Hr in Hp. rewrite (Hs c (nth_error_In _ _ Hc)) in Hp; discriminate.
  - apply IHr1; assumption.
  - destruct Hr as [H1 H2]; rewrite IHr1, IHr2; auto.
  - apply IHr; assumption.
Qed.

Lemma search_at_none r s i rest :
  (forall j, run r s j = None) -> search_at r s i rest = None.
Proof.
  intros H; revert i; induction rest as [|c rest IH]; intros i; simpl; rewrite H; auto.
Qed.

Lemma search_at_some r s i rest a b g :
  search_at r s i rest = Some (a, b, g) -> i <= a /\ run r s a = Some (b, g).
Proof.
  revert i; induction rest as [|c rest IH]; intros i; simpl;
    destruct (run r s i) as [[j g']|] eqn:Hr; intros H; try discriminate;
    try (injection H as <- <- <-; split; auto).
  apply IH in H; destruct H; split; [lia | assumption].
Qed.

Lemma chars_str l : chars (str l) = l.
Proof. apply list_ascii_of_string_of_list_ascii. Qed.

Lemma str_chars s : str (chars s) = s.
Proof. apply string_of_list_ascii_of_string. Qed.

(** A pattern that cannot start anywhere in [s] leaves it unchanged. *)
Lemma sub_needs_first bad r repl s :
  needs_first bad r -> (forall c, In c (chars s) -> bad c = false) -> sub r repl s = s.
Proof.
  intros Hr Hs. unfold sub, sub_with; simpl.
  rewrite search_at_none; [apply str_chars|].
  intros j; apply (mt_needs_first bad); auto.
Qed.

Lemma forallb_negb_In (bad : ascii -> bool) l :
  forallb (fun c => negb (bad c)) l = true -> forall c, In c l -> bad c = false.
Proof.
  intros H c Hc; rewrite forallb_forall in H; apply H in Hc; destruct (bad c); auto.
Qed.

Lemma single_spaced_spec l j c :
  single_spaced l = true -> nth_error l j = Some c -> is_space c = true ->
  c = " "%char /\ sp_at l (S j) = false.
Proof.
  unfold sp_at; revert j; induction l as [|d l IH]; intros j Hl Hj Hc;
    [destruct j; discriminate|].
  simpl in Hl; apply andb_prop in Hl as [Hd Hl].
  destruct j as [|j]; simpl in Hj.
  - injection Hj as ->. rewrite Hc in Hd. apply andb_prop in Hd as [He Hn].
    apply Ascii.eqb_eq in He; split; [assumption|].
    destruct l as [|e l]; simpl; [reflexivity|]. destruct (is_space e); auto.
  - exact (IH j Hl Hj Hc).
Qed.

Lemma single_spaced_last l c :
  single_spaced (l ++ [c]) = true -> is_space c = false.
Proof.
  induction l as [|d l IH]; simpl; intros H.
  - destruct (is_space c); [|reflexivity]. simpl in H. rewrite andb_false_r in H; discriminate.
  - apply andb_prop in H as [_ H]; auto.
Qed.

Lemma drop_space_id l :
  match l with c :: _ => is_space c = false | [] => True end -> Str.drop_space l = l.
Proof. destruct l as [|c l]; simpl; [reflexivity|]; intros ->; reflexivity. Qed.

Lemma strip_normal s :
  single_spaced (chars s) = true ->
  match chars s with c :: _ => negb (is_space c) | [] => true end = true ->
  Str.strip s = s.
Proof.
  intros Hs Hh. unfold Str.strip.
  rewrite (drop_space_id (chars s)) by (destruct (chars s) as [|c0 l0]; auto; destruct (is_space c0); auto).
  rewrite drop_space_id; [rewrite rev_involutive; apply str_chars|].
  destruct (rev (chars s)) as [|c r] eqn:E; [exact I|].
  apply (single_spaced_last (rev r)).
  rewrite <- (rev_involutive (chars s)), E in Hs. exact Hs.
Qed.

Lemma run_ws_some s a b g :
  run whitespace_run s a = Some (b, g) ->
  sp_at s a = true /\ (sp_at s (S a) = false -> b = S a).
Proof.
  unfold run, whitespace_run, plus, sp, sp_at; cbn [mt].
  destruct (nth_error s a) as [c|] eqn:Hc; [|discriminate].
  destruct (is_space c); [|discriminate].
  intros H; split; [reflexivity|]; intros Hn.
  destruct (nth_error s (S a)) as [d|] eqn:Hd.
  - rewrite Hn in H. injection H as <- _; reflexivity.
  - injection H as <- _; reflexivity.
Qed.

Lemma skipn_nth_error {A} (l : list A) n c :
  nth_error l n = Some c -> skipn n l = c :: skipn (S n) l.
Proof.
  revert n; induction l as [|x l IH]; intros [|n] H; simpl in *; try discriminate.
  - injection H as ->; reflexivity.
  - apply IH, H.
Qed.

Lemma sub_at_ws_id s f i :
  single_spaced s = true ->
  sub_at f whitespace_run (fun _ _ => [" "%char]) s i = skipn i s.
Proof.
  intros Hss; revert i; induction f as [|f IH]; intros i; simpl; [reflexivity|].
  destruct (search_at whitespace_run s i (skipn i s)) as [[[a b] g]|] eqn:Hs; [|reflexivity].
  apply search_at_some in Hs as [Hia Hr]. apply run_ws_some in Hr as [Ha Hb].
  unfold sp_at in Ha; destruct (nth_error s a) as [c|] eqn:Hc; [|discriminate].
  destruct (single_spaced_spec s a c Hss Hc Ha) as [-> Hn].
  rewrite (Hb Hn). replace (S a =? a) with false by (symmetry; apply Nat.eqb_neq; lia).
  rewrite IH.
  unfold slice. rewrite <- (firstn_skipn (a - i) (skipn i s)) at 2.
  rewrite skipn_skipn, Nat.sub_add by assumption.
  rewrite (skipn_nth_error s a " "%char Hc); reflexivity.
Qed.

Lemma sub_ws_id s : single_spaced (chars s) = true -> sub whitespace_run " " s = s.
Proof.
  intros H. unfold sub, sub_with. simpl (chars " ").
  rewrite sub_at_ws_id by assumption. apply str_chars.
Qed.

Lemma needs_comment_slashes : needs_first comment_char comment_slashes.
Proof.
  cbv [needs_first comment_slashes lit lit_l chars list_ascii_of_string].
  intros c Hc; unfold is_char in Hc; apply Ascii.eqb_eq in Hc; subst c; reflexivity.
Qed.

Lemma needs_comment_hash : needs_first comment_char comment_hash.
Proof.
  cbv [needs_first comment_hash lit lit_l chars list_ascii_of_string].
  intros c Hc; unfold is_char in Hc; apply Ascii.eqb_eq in Hc; subst c; reflexivity.
Qed.

Lemma needs_comment_triple_single : needs_first comment_char comment_triple_single.
Proof.
  cbv [needs_first comment_triple_single seqs lit_l].
  intros c Hc; unfold is_char in Hc; apply Ascii.eqb_eq in Hc; subst c; reflexivity.
Qed.

Lemma needs_comment_block : needs_first comment_char comment_block.
Proof.
  cbv [needs_first comment_block seqs lit lit_l chars list_ascii_of_string].
  intros c Hc; unfold is_char in Hc; apply Ascii.eqb_eq in Hc; subst c; reflexivity.
Qed.

Lemma needs_block_opener : needs_first block_char block_opener.
Proof.
  cbv [needs_first block_opener alts lit lit_l chars list_ascii_of_string].
  repeat split; intros c Hc; unfold is_char in Hc; apply Ascii.eqb_eq in Hc; subst c; reflexivity.
Qed.

Lemma normalize_line_normal s :
  normal_line comment_char s = true -> normalize_line true false s = s.
Proof.
  unfold normal_line; intros H. apply andb_prop in H as [H Hh]; apply andb_prop in H as [Hb Hs].
  pose proof (forallb_negb_In _ _ Hb) as Hc.
  unfold normalize_line.
  rewrite (strip_normal s Hs Hh), (sub_ws_id s Hs).
  rewrite (sub_needs_first _ _ _ _ needs_comment_slashes Hc).
  rewrite (sub_needs_first _ _ _ _ needs_comment_hash Hc).
  rewrite (sub_needs_first _ _ _ _ needs_comment_triple_single Hc).
  rewrite (sub_needs_first _ _ _ _ needs_comment_block Hc).
  apply strip_normal; assumption.
Qed.

Lemma normal_line_block_comment s :
  normal_line block_char s = true -> normal_line comment_char s = true.
Proof.
  unfold normal_line; intros H.
  apply andb_prop in H as [H Hh]; apply andb_prop in H as [Hb Hs].
  rewrite Hs, Hh, !andb_true_r. rewrite forallb_forall in *.
  intros c Hc; specialize (Hb c Hc). unfold block_char in Hb.
  destruct (comment_char c); auto.
Qed.

Lemma search_opener_normal s :
  normal_line block_char s = true -> search block_opener s = false.
Proof.
  unfold normal_line, search; intros H.
  apply andb_prop in H as [H _]; apply andb_prop in H as [Hb _].
  rewrite search_at_none; [reflexivity|].
  intros j; apply (mt_needs_first block_char); [apply needs_block_opener|].
  apply forallb_negb_In, Hb.
Qed.

Lemma block_loop_no_opener fuel i ls :
  (forall l, In l ls -> search block_opener l = false) -> block_loop fuel i ls = Some ls.
Proof.
  intros H; revert i; induction fuel as [|f IH]; intros i; [reflexivity|].
  rewrite block_loop_S. destruct (i <? List.length ls) eqn:Hi; [|reflexivity].
  destruct (nth_error ls i) as [l|] eqn:Hl.
  - rewrite (H l (nth_error_In _ _ Hl)). apply IH.
  - apply nth_error_None in Hl. apply Nat.ltb_lt in Hi. lia.
Qed.

Lemma normalize_lines_normal ls :
  forallb (normal_line block_char) ls = true -> normalize_lines ls = Some ls.
Proof.
  intros H; rewrite forallb_forall in H. unfold normalize_lines, normalize_block_comments.
  assert (E : map (normalize_line true false) ls = ls).
  { rewrite <- map_id. apply map_ext_in. intros l Hl.
    apply normalize_line_normal, normal_line_block_comment, H, Hl. }
  rewrite E. apply block_loop_no_opener.
  intros l Hl; apply search_opener_normal, H, Hl.
Qed.

(** C8: [normalize_line] removes no punctuation. It collapses whitespace,
    trims the line and deletes comments, and nothing else: a line without
    slash, hash or single quote, trimmed and with single blanks inside, comes
    back unchanged, with every [;,(){}[]] it has. *)
Theorem normalize_line_keeps_punctuation (line : string) :
  normal_line comment_char line = true -> normalize_line true false line = line.
Proof. apply normalize_line_normal. Qed.

Lemma normalize_line_keeps_punctuation_witness :
  normal_line comment_char "int[] xs = {f(a), g(b)};" = true /\
  normalize_line true false "int[] xs = {f(a), g(b)};" = "int[] xs = {f(a), g(b)};"%string.
Proof.
  split; [vm_compute; reflexivity|].
  apply normalize_line_keeps_punctuation; vm_compute; reflexivity.
Defined.

(** C8, counterexample: punctuation is kept. *)
Lemma normalize_line_punctuation_kept :
  normalize_line true false "if (a[0]) { f(x, y); }" = "if (a[0]) { f(x, y); }"%string.
Proof. vm_compute; reflexivity. Qed.

(** C7: normalisation is not idempotent. [normalize_line] collapses
    whitespace before it deletes comments, so deleting the block comment of
    [a /*x*/ b] leaves two blanks: the result [a  b] still holds a run of
    spaces, against its docstring, and normalising it again gives [a b]. *)
Lemma normalize_lines_not_idempotent :
  normalize_lines ["a /*x*/ b"]%string = Some ["a  b"]%string /\
  normalize_lines ["a  b"]%string = Some ["a b"]%string.
Proof. split; vm_compute; reflexivity. Qed.

(** Texts already in normal form are fixpoints of normalisation. If no line
    has a slash, hash or quote character, no line starts or ends with
    whitespace, and every whitespace character inside a line is a single
    blank between two other characters (no tab, no two blanks in a row), then
    normalising returns the text unchanged, and normalising the result again
    changes nothing. *)
Theorem normalize_lines_idempotent_on_normal_form (ls : list string) :
  forallb (normal_line block_char) ls = true ->
  normalize_lines ls = Some ls /\
  (forall out, normalize_lines ls = Some out -> normalize_lines out = Some out).
Proof.
  intros H; pose proof (normalize_lines_normal ls H) as E; split; [exact E|].
  intros out Hout; rewrite E in Hout; injection Hout as <-; exact E.
Qed.

Lemma normalize_lines_idempotent_on_normal_form_witness :
  forallb (normal_line block_char) ["int x = f(a, b);"; "return x;"]%string = true /\
  normalize_lines ["int x = f(a, b);"; "return x;"]%string = Some ["int x = f(a, b);"; "return x;"]%string /\
  (forall out, normalize_lines ["int x = f(a, b);"; "return x;"]%string = Some out ->
               normalize_lines out = Some out).
Proof.
  split; [vm_compute; reflexivity|].
  apply normalize_lines_idempotent_on_normal_form; vm_compute; reflexivity.
Defined.

(** ** The candidate lists of the SimHash index *)

Section Candidates.
Import SimhashIndex.

Lemma insert_by_key_perm (x : nat * nat) l :
  Permutation (insert_by_key snd x l) (x :: l).
Proof.
  induction l as [|y l IH]; simpl; [reflexivity|].
  destruct (snd x <=? snd y); [reflexivity|].
  eapply perm_trans; [apply perm_skip, IH|apply perm_swap].
Qed.

Lemma sort_by_key_perm (l : list (nat * nat)) :
  Permutation (sort_by_key snd l) l.
Proof.
  induction l as [|x l IH]; simpl; [reflexivity|].
  eapply perm_trans; [apply insert_by_key_perm|apply perm_skip, IH].
Qed.

Lemma insert_by_key_hd y x l :
  HdRel lex_lt y l -> lex_lt y x -> HdRel lex_lt y (insert_by_key snd x l).
Proof.
  destruct l as [|z l]; simpl; intros H Hyx; [constructor; auto|].
  destruct (snd x <=? snd z); constructor; auto. inversion H; auto.
Qed.

Lemma insert_by_key_sorted x l :
  Sorted lex_lt l -> (forall y, In y l -> fst x < fst y) -> Sorted lex_lt (insert_by_key snd x l).
Proof.
  induction l as [|y l IH]; simpl; intros Hs Hx; [repeat constructor|].
  destruct (snd x <=? snd y) eqn:E.
  - constructor; [exact Hs|]. constructor. unfold lex_lt.
    apply Nat.leb_le in E. specialize (Hx y (or_introl eq_refl)). lia.
  - apply Sorted_inv in Hs as [Hs Hh]. constructor.
    + apply IH; auto.
    + apply insert_by_key_hd; auto. unfold lex_lt. apply Nat.leb_gt in E. lia.
Qed.

Lemma sort_by_key_sorted l :
  StronglySorted fst_lt l -> Sorted lex_lt (sort_by_key snd l).
Proof.
  induction l as [|x l IH]; simpl; intros H; [constructor|].
  apply StronglySorted_inv in H as [Hs Hf].
  apply insert_by_key_sorted; auto.
  intros y Hy. apply (Permutation_in _ (sort_by_key_perm l)) in Hy.
  rewrite Forall_forall in Hf; exact (Hf y Hy).
Qed.

Lemma firstn_sorted {A} (R : A -> A -> Prop) n l : Sorted R l -> Sorted R (firstn n l).
Proof.
  revert n; induction l as [|x l IH]; intros [|n] H; simpl; try constructor.
  - apply Sorted_inv in H as [H _]; auto.
  - apply Sorted_inv in H as [_ Hh]. destruct l as [|y l], n; simpl; constructor.
    inversion Hh; auto.
Qed.

Lemma distances_props (g : N -> nat) s (hs : list N) :
  StronglySorted fst_lt (map (fun '(i, h) => (i, g h)) (enumerate_from s hs)) /\
  forall z, In z (map (fun '(i, h) => (i, g h)) (enumerate_from s hs)) ->
    s <= fst z /\ exists h, nth_error hs (fst z - s) = Some h /\ snd z = g h.
Proof.
  revert s; induction hs as [|h hs IH]; intros s; simpl; [split; [constructor|tauto]|].
  destruct (IH (S s)) as [Hs Hin]. split.
  - constructor; [exact Hs|]. apply Forall_forall. intros z Hz.
    apply Hin in Hz as [Hz _]. unfold fst_lt; simpl; lia.
  - intros z [<-|Hz]; simpl.
    + rewrite Nat.sub_diag; split; [lia|exists h; split; reflexivity].
    + apply Hin in Hz as [Hle [h' [Hh' E]]]. split; [lia|].
      exists h'. replace (fst z - s) with (S (fst z - S s)) by lia. auto.
Qed.

End Candidates.

Lemma in_firstn {A} n (l : list A) z : In z (firstn n l) -> In z l.
Proof. intros H; rewrite <- (firstn_skipn n l); apply in_or_app; auto. Qed.

(** C9: the candidate list of a target line has at most [k] entries. It is
    strictly ordered by ascending Hamming distance, with ties broken by
    ascending index. Every entry pairs the index of a line of the new side
    with that line's distance to the target. *)
Theorem get_top_k_candidates_ordered (compute_simhash : string -> N)
    (lines : list string) (target : string) (k : nat) :
  List.length (SimhashIndex.get_top_k_candidates compute_simhash
                 (SimhashIndex.hashes compute_simhash lines) target k) <= k /\
  Sorted lex_lt (SimhashIndex.get_top_k_candidates compute_simhash
                   (SimhashIndex.hashes compute_simhash lines) target k) /\
  Forall (fun z => exists line, nth_error lines (fst z) = Some line /\
             snd z = SimhashIndex.hamming_distance (compute_simhash target) (compute_simhash line))
    (SimhashIndex.get_top_k_candidates compute_simhash
       (SimhashIndex.hashes compute_simhash lines) target k).
Proof.
  unfold SimhashIndex.get_top_k_candidates, SimhashIndex.nsmallest, SimhashIndex.enumerate.
  destruct (distances_props (SimhashIndex.hamming_distance (compute_simhash target)) 0
              (SimhashIndex.hashes compute_simhash lines)) as [Hs Hin].
  split; [apply firstn_le_length|]. split.
  - apply firstn_sorted, sort_by_key_sorted, Hs.
  - apply Forall_forall; intros z Hz.
    apply in_firstn, (Permutation_in _ (sort_by_key_perm _)), Hin in Hz as [_ [h [Hh E]]].
    rewrite Nat.sub_0_r in Hh. unfold SimhashIndex.hashes in Hh.
    rewrite nth_error_map in Hh.
    destruct (nth_error lines (fst z)) as [line|]; [|discriminate].
    injection Hh as <-; eauto.
Qed.

(** ** Candidate sets of identical sides *)

Lemma hamming_distance_self a : SimhashIndex.hamming_distance a a = 0.
Proof. unfold SimhashIndex.hamming_distance; rewrite N.lxor_nilpotent; reflexivity. Qed.

Lemma enumerate_from_repeat {A B} (F : nat * A -> B) (y : A) s n :
  map F (SimhashIndex.enumerate_from s (repeat y n)) = map (fun i => F (i, y)) (seq s n).
Proof. revert s; induction n as [|n IH]; intros s; simpl; [reflexivity|rewrite IH; reflexivity]. Qed.

Lemma sort_by_key_ties (l : list nat) :
  SimhashIndex.sort_by_key snd (map (fun i => (i, 0)) l) = map (fun i => (i, 0)) l.
Proof.
  unfold SimhashIndex.sort_by_key in *.
  induction l as [|x l IH]; [reflexivity|]. cbn [map fold_right].
  rewrite IH. destruct l; reflexivity.
Qed.

(** With every fingerprint equal, every line ties with every other, and each
    old line gets the first [k] new indices. *)
Lemma generate_candidate_sets_repeat (compute_simhash : string -> N) (x : string) m n k :
  SimhashIndex.generate_candidate_sets compute_simhash (repeat x m) (repeat x n) k
  = map (fun i => (i, firstn k (seq 0 n))) (seq 0 m).
Proof.
  unfold SimhashIndex.generate_candidate_sets, SimhashIndex.enumerate.
  rewrite enumerate_from_repeat. apply map_ext; intros i. f_equal.
  unfold SimhashIndex.get_top_k_candidates, SimhashIndex.nsmallest, SimhashIndex.hashes,
    SimhashIndex.enumerate.
  rewrite map_repeat, enumerate_from_repeat, hamming_distance_self.
  rewrite sort_by_key_ties, firstn_map, map_map. apply map_id.
Qed.

Lemma map_fst_enumerate_from {A B} (F : nat * A -> nat * B) s l :
  (forall i x, fst (F (i, x)) = i) ->
  map fst (map F (SimhashIndex.enumerate_from s l)) = seq s (List.length l).
Proof.
  intros HF; revert s; induction l as [|x l IH]; intros s; simpl; [reflexivity|].
  rewrite HF, IH; reflexivity.
Qed.

Lemma length_enumerate_from {A} s (l : list A) :
  List.length (SimhashIndex.enumerate_from s l) = List.length l.
Proof. revert s; induction l as [|x l IH]; intros s; simpl; auto. Qed.

Lemma dict_get_enumerate_from {A B} (F : nat * A -> nat * B) s l j :
  (forall i x, fst (F (i, x)) = i) -> s <= j ->
  Dict.get Nat.eqb (map F (SimhashIndex.enumerate_from s l)) j
  = option_map (fun x => snd (F (j, x))) (nth_error l (j - s)).
Proof.
  intros HF; revert s; induction l as [|x l IH]; intros s Hs; simpl.
  - destruct (j - s); reflexivity.
  - match goal with |- context [F ?p] => destruct (F p) as [i y] eqn:E end.
    pose proof (HF s x) as Hi; rewrite E in Hi; simpl in Hi; subst i; simpl.
    destruct (Nat.eqb_spec j s) as [->|Hne].
    + rewrite Nat.sub_diag; simpl; rewrite E; reflexivity.
    + rewrite IH by lia. replace (j - s) with (S (j - S s)) by lia. reflexivity.
Qed.

(** C2: identical sides do not always give the identity. Sixteen copies of
    one line tie at Hamming distance 0 with every line, so each candidate list
    is the first fifteen indices [0..14], whatever the fingerprint function.
    Old line 15 is first matched to new line 0, loses it to old line 0 in
    [resolve_conflicts] and is moved to new line 1, which old line 1 keeps as
    well; the identity sends it to 15. The move is the slip of C1: the
    alternative search consults only the groups resolved so far. Consulting
    the matches of old lines 0..14, it returns new line 15, which is free. *)
Lemma pipeline_identical_sides_not_identity :
  (forall compute_simhash : string -> N,
     pipeline compute_simhash (repeat "ABCDEFGHIJ"%string 16) (repeat "ABCDEFGHIJ"%string 16)
     = Some [(0, [0]); (15, [1]); (1, [1]); (2, [2]); (3, [3]); (4, [4]); (5, [5]); (6, [6]);
        (7, [7]); (8, [8]); (9, [9]); (10, [10]); (11, [11]); (12, [12]); (13, [13]); (14, [14])]) /\
  Dict.get Nat.eqb (identity_mapping (repeat "ABCDEFGHIJ"%string 16)) 15 = Some [15] /\
  find_valid_alternative 0 (repeat "ABCDEFGHIJ"%string 16) 15
    (map (fun i => (i, (i, 1%Q))) (seq 0 15)) = Some 15.
Proof.
  split; [|split; vm_compute; reflexivity].
  intros compute_simhash. unfold pipeline.
  rewrite generate_candidate_sets_repeat. vm_compute; reflexivity.
Qed.

(** On identical sides of at most [k] lines, the candidate list of every line
    [i] is a permutation of all the indices [0 .. |L|-1], so it contains [i]
    itself. This holds for every fingerprint function. *)
Theorem candidate_sets_identical_sides (compute_simhash : string -> N)
    (lines : list string) (k i : nat) :
  List.length lines <= k -> i < List.length lines ->
  Permutation (cands_get (SimhashIndex.generate_candidate_sets compute_simhash lines lines k) i)
              (seq 0 (List.length lines)) /\
  In i (cands_get (SimhashIndex.generate_candidate_sets compute_simhash lines lines k) i).
Proof.
  intros Hk Hi.
  assert (P : Permutation
                (cands_get (SimhashIndex.generate_candidate_sets compute_simhash lines lines k) i)
                (seq 0 (List.length lines))).
  { unfold cands_get, SimhashIndex.generate_candidate_sets, SimhashIndex.enumerate.
    rewrite dict_get_enumerate_from; [| intros ? ?; reflexivity | lia].
    rewrite Nat.sub_0_r.
    destruct (nth_error lines i) as [line|] eqn:Hl;
      [|apply nth_error_None in Hl; lia].
    simpl. unfold SimhashIndex.get_top_k_candidates, SimhashIndex.nsmallest, SimhashIndex.enumerate.
    rewrite firstn_all2.
    - eapply perm_trans; [apply Permutation_map, sort_by_key_perm|].
      rewrite map_fst_enumerate_from by reflexivity.
      unfold SimhashIndex.hashes; rewrite length_map; reflexivity.
    - rewrite (Permutation_length (sort_by_key_perm _)), length_map, length_enumerate_from.
      unfold SimhashIndex.hashes; rewrite length_map; exact Hk. }
  split; [exact P|]. apply (Permutation_in _ (Permutation_sym P)), in_seq. lia.
Qed.

Lemma candidate_sets_identical_sides_witness :
  (3 <= 15 /\ 2 < 3) /\
  Permutation (cands_get (SimhashIndex.generate_candidate_sets (fun s => N.of_nat (String.length s))
                            ["a"; "bb"; "a"]%string ["a"; "bb"; "a"]%string 15) 2) (seq 0 3) /\
  In 2 (cands_get (SimhashIndex.generate_candidate_sets (fun s => N.of_nat (String.length s))
                     ["a"; "bb"; "a"]%string ["a"; "bb"; "a"]%string 15) 2).
Proof.
  split; [split; lia|].
  apply (candidate_sets_identical_sides (fun s => N.of_nat (String.length s)) ["a"; "bb"; "a"]%string 15 2);
    simpl; lia.
Defined.

(** ** Scores of [best_match_for_each_line] *)

Lemma fold_left_inv {A B} (P : B -> Prop) (f : B -> A -> B) (l : list A) (b : B) :
  P b -> (forall b x, In x l -> P b -> P (f b x)) -> P (fold_left f l b).
Proof.
  revert b; induction l as [|x l IH]; intros b Hb Hf; simpl; [exact Hb|].
  apply IH; [apply Hf; simpl; auto|]. intros b' y Hy; apply Hf; simpl; auto.
Qed.

Lemma all_entries_set (P : nat -> nat -> Q -> Prop) m k v :
  all_entries P m -> P k (fst v) (snd v) -> all_entries P (Dict.set Nat.eqb m k v).
Proof.
  unfold all_entries; induction m as [|[k' v'] m IH]; intros Hm Hk; simpl.
  - constructor; auto.
  - inversion Hm as [|? ? Hh Ht]; subst.
    destruct (Nat.eqb_spec k k') as [<-|]; constructor; auto.
Qed.

Lemma qgt_iff a b : qgt a b = true <-> (b < a)%Q.
Proof.
  unfold qgt; rewrite negb_true_iff. split; intros H.
  - apply Qnot_le_lt; intros H'; apply Qle_bool_iff in H'; congruence.
  - destruct (Qle_bool a b) eqn:E; auto. apply Qle_bool_iff in E. exfalso; apply (Qlt_not_le _ _ H E).
Qed.

Lemma qgt_weaken s a b : qgt s a = true -> (b <= a)%Q -> qgt s b = true.
Proof. rewrite !qgt_iff; intros; eapply Qle_lt_trans; eauto. Qed.

Lemma qmin_one_gt b c : qgt b c = true -> (c < 1)%Q -> qgt (qmin b 1) c = true.
Proof. unfold qmin; destruct (qgt b 1); auto. intros _; apply qgt_iff. Qed.

Lemma best_over_some {A} (score : A -> option Q) floor l x s :
  best_over score floor l = (Some x, s) -> score x = Some s /\ qgt s floor = true.
Proof.
  unfold best_over. intros H.
  match type of H with fold_left ?f _ _ = _ =>
    assert (Hinv : forall acc, match fst acc with
                   | Some y => score y = Some (snd acc) /\ qgt (snd acc) floor = true
                   | None => True end ->
                   match fst (fold_left f l acc) with
                   | Some y => score y = Some (snd (fold_left f l acc)) /\ qgt (snd (fold_left f l acc)) floor = true
                   | None => True end) end.
  { intros acc Hacc; apply fold_left_inv with (P := fun acc => match fst acc with
        | Some y => score y = Some (snd acc) /\ qgt (snd acc) floor = true | None => True end);
      [exact Hacc|].
    intros [b bs] y _ Hb; simpl.
    destruct (score y) as [s'|] eqn:E; [|exact Hb].
    destruct (qgt s' bs && qgt s' floor) eqn:C; [|exact Hb].
    apply andb_prop in C as [_ C]; simpl; auto. }
  specialize (Hinv (None, 0%Q) I). rewrite H in Hinv; exact Hinv.
Qed.

Section Gate.
Variable sim : nat -> nat -> Q.
Variable cands : nat -> list nat.
Variable old_lines new_lines : list string.

Let G := pass_gate sim old_lines new_lines.
Let Inv (mu : match_dict * list nat) : Prop := all_entries G (fst mu).

Lemma pass1_gate mu : Inv mu -> Inv (pass1 sim cands old_lines mu).
Proof.
  intros H; unfold pass1. apply fold_left_inv; [exact H|].
  intros [m used] i _ Hm; unfold Inv in *; simpl in Hm |- *.
  destruct (find _ (cands i)) as [j|] eqn:E; simpl; [|exact Hm].
  apply find_some in E as [_ E]. apply andb_prop in E as [E _].
  apply all_entries_set; [exact Hm|]. left; simpl.
  eapply qgt_weaken; [exact E|]. unfold Qle; simpl; lia.
Qed.

Lemma add_proposals_gate proposals mu :
  all_entries G proposals -> Inv mu -> Inv (add_proposals proposals mu).
Proof.
  intros Hp H; unfold add_proposals. apply fold_left_inv; [exact H|].
  intros [m used] [i [j s]] Hin Hm; unfold Inv in *; simpl in Hm |- *.
  destruct (_ && _); simpl; [|exact Hm].
  apply all_entries_set; [exact Hm|].
  unfold all_entries in Hp; rewrite Forall_forall in Hp; exact (Hp _ Hin).
Qed.

Lemma pass3_gate mu : Inv mu -> Inv (pass3 sim cands old_lines new_lines mu).
Proof.
  intros H; unfold pass3. apply fold_left_inv; [exact H|].
  intros [m used] i _ Hm; unfold Inv in *; simpl in Hm |- *.
  destruct (Dict.mem Nat.eqb m i); simpl; [exact Hm|].
  destruct (is_control_flow_line (line_at old_lines i) || Str.contains (line_at old_lines i) "return")
    eqn:Ho; [|exact Hm].
  match goal with |- context [best_over ?f ?fl ?l] => destruct (best_over f fl l) as [[j|] bs] eqn:E end;
    simpl; [|exact Hm].
  apply best_over_some in E as [E Hbs].
  destruct (in_nat j used); [discriminate|].
  destruct (_ && qgt (sim i j) (6 # 10)) eqn:C; [|discriminate].
  injection E as <-. apply andb_prop in C as [Cn Cs].
  apply all_entries_set; [exact Hm|]. right; simpl. repeat split; auto.
Qed.

Lemma pass4_gate mu : Inv mu -> Inv (pass4 sim cands old_lines new_lines mu).
Proof.
  intros H; unfold pass4. apply fold_left_inv; [exact H|].
  intros [m used] i _ Hm; unfold Inv in *; simpl in Hm |- *.
  destruct (Dict.mem Nat.eqb m i); simpl; [exact Hm|].
  match goal with |- context [best_over ?f ?fl ?l] => destruct (best_over f fl l) as [[j|] bs] eqn:E end;
    simpl; [|exact Hm].
  apply best_over_some in E as [_ Hbs].
  apply all_entries_set; [exact Hm|]. left; simpl.
  eapply qgt_weaken; [exact Hbs|]. unfold Qle; simpl; lia.
Qed.

Lemma pass6_gate mu : Inv mu -> Inv (pass6 sim cands old_lines mu).
Proof.
  intros H; unfold pass6. apply fold_left_inv; [exact H|].
  intros [m used] i _ Hm; unfold Inv in *; simpl in Hm |- *.
  destruct (Dict.mem Nat.eqb m i); simpl; [exact Hm|].
  match goal with |- context [best_over ?f ?fl ?l] => destruct (best_over f fl l) as [[j|] bs] eqn:E end;
    simpl; [|exact Hm].
  apply best_over_some in E as [_ Hbs].
  apply all_entries_set; [exact Hm|]. left; simpl.
  eapply qgt_weaken; [exact Hbs|]. unfold Qle; simpl; lia.
Qed.

Lemma pass7_gate mu : Inv mu -> Inv (pass7 sim cands old_lines mu).
Proof.
  intros H; unfold pass7. apply fold_left_inv; [exact H|].
  intros [m used] i _ Hm; unfold Inv in *; simpl in Hm |- *.
  destruct (Dict.mem Nat.eqb m i); simpl; [exact Hm|].
  match goal with |- context [best_over ?f ?fl ?l] => destruct (best_over f fl l) as [[j|] bs] eqn:E end;
    simpl; [|exact Hm].
  destruct (qgt bs (2 # 10)) eqn:C; simpl; [|exact Hm].
  apply all_entries_set; [exact Hm|]. left; exact C.
Qed.

Let P4 := all_entries (fun _ _ s => qgt s (4 # 10) = true).

Lemma enhanced_above st : P4 (find_enhanced_structural_matches st sim cands old_lines new_lines).
Proof.
  unfold find_enhanced_structural_matches; cbv zeta.
  apply fold_left_inv; [apply fold_left_inv; [apply fold_left_inv; [constructor|]|]|].
  - intros sm [old_idx info] _ Hsm; simpl.
    destruct (replacement_line info <? List.length new_lines); [|exact Hsm].
    match goal with |- context [if qgt ?b (4 # 10) then _ else _] => destruct (qgt b (4 # 10)) eqn:C end;
      [|exact Hsm].
    apply all_entries_set; [exact Hsm|]. simpl. apply qmin_one_gt; [exact C|]. unfold Qlt; simpl; lia.
  - intros sm [name info] _ Hsm; simpl.
    destruct (Dict.get String.eqb (method_boundaries_old st) name) as [[oms ome]|]; [|exact Hsm].
    destruct (Dict.get String.eqb (method_boundaries_new st) name) as [[nms nme]|]; [|exact Hsm].
    apply fold_left_inv; [exact Hsm|]. intros sm' old_idx _ H'.
    destruct (Dict.mem Nat.eqb sm' old_idx); [exact H'|].
    match goal with |- context [best_over ?f ?fl ?l] => destruct (best_over f fl l) as [[j|] bs] eqn:E end;
      [|exact H'].
    apply best_over_some in E as [_ E]. apply all_entries_set; [exact H'|exact E].
  - intros sm [old_idx old_line] _ Hsm; simpl.
    destruct (Dict.mem Nat.eqb sm old_idx); [exact Hsm|].
    apply fold_left_inv; [exact Hsm|]. intros sm' [name p] _ H'.
    destruct (search (sp_old p) old_line); [|exact H'].
    match goal with |- context [find ?f ?l] => destruct (find f l) as [[new_idx nl]|] eqn:E end;
      [|exact H'].
    apply find_some in E as [_ E]. apply andb_prop in E as [_ E].
    apply all_entries_set; [exact H'|]. simpl.
    eapply qgt_weaken; [exact E|]. unfold Qle; simpl; lia.
Qed.

Lemma remaining_above st existing used :
  P4 (find_remaining_structural_matches st old_lines new_lines existing used).
Proof.
  unfold find_remaining_structural_matches; cbv zeta.
  apply fold_left_inv; [constructor|].
  intros rm [old_idx info] _ Hrm; simpl.
  destruct (Dict.mem Nat.eqb existing old_idx); [exact Hrm|].
  destruct (_ && _); [|exact Hrm].
  match goal with |- context [if qgt ?b (4 # 10) then _ else _] => destruct (qgt b (4 # 10)) eqn:C end;
    [|exact Hrm].
  apply all_entries_set; [exact Hrm|]. simpl. apply qmin_one_gt; [exact C|]. unfold Qlt; simpl; lia.
Qed.

Lemma above_gate m : P4 m -> all_entries G m.
Proof.
  unfold P4, all_entries; apply Forall_impl; intros e He; left.
  eapply qgt_weaken; [exact He|]. unfold Qle; simpl; lia.
Qed.

End Gate.

(** C6, counterexample: a retained score below [0.2]. The old line
    [return a] has one candidate, new line 12, [return a b]. Their raw
    similarity [129/165], about [0.78], is above the [0.6] of pass 3, and
    pass 3 keeps the score damped by the distance,
    [129/165 * (1 - 12/15) = 129/825], about [0.156]. *)
Lemma best_match_score_below_gate :
  option_map snd (best_match_for_each_line init ["return a"]%string
                    (repeat "b"%string 12 ++ ["return a b"]%string) [(0, [12])] (45 # 100)%Q)
  = Some [(0, (12, (129 # 825)%Q))] /\
  ((129 # 825) < 2 # 10)%Q.
Proof. split; [vm_compute; reflexivity | unfold Qlt; simpl; lia]. Qed.

(** C6: every score that [best_match_for_each_line] retains is above [0.2],
    or it comes from pass 3. A pass 3 score is positive and equals the raw
    similarity [sim(i, j)] times [1 - |i - j| / 15]. For it, [sim(i, j)] is
    above [0.6] and both lines are control-flow lines. Here [sim] is the
    similarity matrix the function computes. *)
Theorem best_match_scores_gated (st : state) (old_lines new_lines : list string)
    (candidate_sets : list (nat * list nat)) (threshold : Q) :
  match best_match_for_each_line st old_lines new_lines candidate_sets threshold with
  | Some (_, m) =>
      all_entries (pass_gate (matrix_get (similarity_matrix old_lines new_lines candidate_sets))
                             old_lines new_lines) m
  | None => True
  end.
Proof.
  unfold best_match_for_each_line; cbv zeta.
  match goal with |- context [detect_structural_changes ?s old_lines new_lines] =>
    destruct (detect_structural_changes s old_lines new_lines) as [st2|] end; [|exact I].
  destruct (negb _); [exact I|].
  apply pass7_gate, pass6_gate, add_proposals_gate; [apply above_gate, remaining_above|].
  apply pass4_gate, pass3_gate, add_proposals_gate; [apply above_gate, enhanced_above|].
  apply pass1_gate. constructor.
Qed.

End Proofs.

Module Extras.
Import Rx IO Matcher Spec Proofs Evaluator ExtraDefs.

(** ** Fingerprints and the nearest-candidate index *)
Open Scope nat_scope.
Lemma pos_popcount_pos p : 1 <= SimhashIndex.pos_popcount p.
Proof. induction p; simpl; lia. Qed.

(** [hamming_distance(a, b)] does not depend on the order of its arguments. *)
Theorem hamming_distance_sym a b :
  SimhashIndex.hamming_distance a b = SimhashIndex.hamming_distance b a.
Proof. unfold SimhashIndex.hamming_distance; rewrite N.lxor_comm; reflexivity. Qed.

(** [hamming_distance(a, b)] is 0 exactly when the two fingerprints are equal. *)
Theorem hamming_distance_zero_iff a b :
  SimhashIndex.hamming_distance a b = 0 <-> a = b.
Proof.
  unfold SimhashIndex.hamming_distance. split.
  - intros H. apply N.lxor_eq. destruct (N.lxor a b) as [|p]; [reflexivity|].
    simpl in H. pose proof (pos_popcount_pos p). lia.
  - intros ->. rewrite N.lxor_nilpotent. reflexivity.
Qed.

Lemma map_fst_distances (g : N -> nat) s (hs : list N) :
  map fst (map (fun '(i, h) => (i, g h)) (SimhashIndex.enumerate_from s hs)) = seq s (List.length hs).
Proof. revert s; induction hs as [|h hs IH]; intros s; simpl; [reflexivity|rewrite IH; reflexivity]. Qed.

Lemma length_sort_by_key {A} (key : A -> nat) l : List.length (SimhashIndex.sort_by_key key l) = List.length l.
Proof.
  unfold SimhashIndex.sort_by_key. induction l as [|x l IH]; simpl; [reflexivity|].
  rewrite <- IH. generalize (fold_right (SimhashIndex.insert_by_key key) [] l) as m.
  induction m as [|y m IHm]; simpl; [reflexivity|]. destruct (key x <=? key y); simpl; lia.
Qed.

Lemma StronglySorted_app_rel {A} (R : A -> A -> Prop) l1 l2 :
  StronglySorted R (l1 ++ l2) -> forall x y, In x l1 -> In y l2 -> R x y.
Proof.
  induction l1 as [|a l1 IH]; simpl; intros H x y Hx Hy; [contradiction|].
  apply StronglySorted_inv in H as [Hs Hf]. destruct Hx as [<-|Hx].
  - rewrite Forall_forall in Hf. apply Hf, in_or_app; auto.
  - eapply IH; eauto.
Qed.

Lemma NoDup_firstn_l {A} n (l : list A) : NoDup l -> NoDup (firstn n l).
Proof. intros H. rewrite <- (firstn_skipn n l) in H. apply NoDup_app_remove_r in H. exact H. Qed.

Lemma lex_lt_trans : Relations_1.Transitive lex_lt.
Proof. intros [a b] [c d] [e f]; unfold lex_lt; simpl; lia. Qed.

Lemma top_k_props (compute_simhash : string -> N) (index_hashes : list N)
    (target : string) (k : nat) :
  List.length (SimhashIndex.get_top_k_candidates compute_simhash index_hashes target k)
    = Nat.min k (List.length index_hashes) /\
  NoDup (map fst (SimhashIndex.get_top_k_candidates compute_simhash index_hashes target k)) /\
  Forall (fun z => fst z < List.length index_hashes)
    (SimhashIndex.get_top_k_candidates compute_simhash index_hashes target k).
Proof.
  unfold SimhashIndex.get_top_k_candidates, SimhashIndex.nsmallest, SimhashIndex.enumerate.
  set (g := SimhashIndex.hamming_distance (compute_simhash target)).
  set (d := map (fun '(i, h) => (i, g h)) (SimhashIndex.enumerate_from 0 index_hashes)).
  assert (Hd : map fst d = seq 0 (List.length index_hashes)) by apply map_fst_distances.
  pose proof (sort_by_key_perm d) as Hp.
  split; [|split].
  - rewrite length_firstn, length_sort_by_key.
    rewrite <- (length_map fst d), Hd, length_seq. reflexivity.
  - rewrite <- firstn_map. apply NoDup_firstn_l.
    apply (Permutation_NoDup (Permutation_map fst (Permutation_sym Hp))).
    rewrite Hd. apply seq_NoDup.
  - apply Forall_forall. intros z Hz.
    apply in_firstn, (Permutation_in _ Hp) in Hz.
    apply (in_map fst) in Hz. rewrite Hd in Hz. apply in_seq in Hz. lia.
Qed.

(** [get_top_k_candidates] returns exactly [min(k, n)] candidates for an index
    of [n] fingerprints; their indices are distinct and all point into the
    index. *)
Theorem get_top_k_candidates_size (compute_simhash : string -> N) (index_hashes : list N)
    (target : string) (k : nat) :
  List.length (SimhashIndex.get_top_k_candidates compute_simhash index_hashes target k)
    = Nat.min k (List.length index_hashes) /\
  NoDup (map fst (SimhashIndex.get_top_k_candidates compute_simhash index_hashes target k)) /\
  Forall (fun z => fst z < List.length index_hashes)
    (SimhashIndex.get_top_k_candidates compute_simhash index_hashes target k).
Proof. apply top_k_props. Qed.

Lemma in_distances (g : N -> nat) s (hs : list N) i h :
  nth_error hs i = Some h ->
  In (s + i, g h) (map (fun '(i, h) => (i, g h)) (SimhashIndex.enumerate_from s hs)).
Proof.
  revert s i; induction hs as [|x hs IH]; intros s [|i] Hi; simpl in *; try discriminate.
  - injection Hi as ->. left; f_equal; lia.
  - right. replace (s + S i) with (S s + i) by lia. auto.
Qed.

(** An indexed fingerprint that [get_top_k_candidates] leaves out is at least
    as far from the target as every candidate it returns. *)
Theorem get_top_k_candidates_nearest (compute_simhash : string -> N) (index_hashes : list N)
    (target : string) (k : nat) (i : nat) (h : N) :
  nth_error index_hashes i = Some h ->
  ~ In i (map fst (SimhashIndex.get_top_k_candidates compute_simhash index_hashes target k)) ->
  Forall (fun z => snd z <= SimhashIndex.hamming_distance (compute_simhash target) h)
    (SimhashIndex.get_top_k_candidates compute_simhash index_hashes target k).
Proof.
  intros Hi Hn. revert Hn.
  unfold SimhashIndex.get_top_k_candidates, SimhashIndex.nsmallest, SimhashIndex.enumerate.
  set (g := SimhashIndex.hamming_distance (compute_simhash target)).
  set (d := map (fun '(i, h) => (i, g h)) (SimhashIndex.enumerate_from 0 index_hashes)).
  intros Hn.
  destruct (distances_props g 0 index_hashes) as [Hs _].
  pose proof (sort_by_key_perm d) as Hp.
  assert (Hin : In (i, g h) (SimhashIndex.sort_by_key snd d)).
  { apply (Permutation_in _ (Permutation_sym Hp)). apply (in_distances g 0 _ i h Hi). }
  rewrite <- (firstn_skipn k (SimhashIndex.sort_by_key snd d)) in Hin.
  apply in_app_or in Hin as [Hin|Hin].
  { exfalso. apply Hn. apply (in_map fst) in Hin. exact Hin. }
  apply Forall_forall. intros z Hz.
  assert (Hss : StronglySorted lex_lt (SimhashIndex.sort_by_key snd d)).
  { apply Sorted_StronglySorted; [apply lex_lt_trans|]. apply sort_by_key_sorted, Hs. }
  rewrite <- (firstn_skipn k (SimhashIndex.sort_by_key snd d)) in Hss.
  pose proof (StronglySorted_app_rel _ _ _ Hss z _ Hz Hin) as Hl.
  unfold lex_lt in Hl; simpl in Hl. fold g. lia.
Qed.

(** ** Candidate sets *)
Open Scope nat_scope.

(** [generate_candidate_sets] has one entry per old line, keyed 0, 1, ... in
    order; each candidate list holds [min(k, |new|)] distinct indices of new
    lines. *)
Theorem generate_candidate_sets_shape (compute_simhash : string -> N)
    (old_lines new_lines : list string) (k : nat) :
  map fst (SimhashIndex.generate_candidate_sets compute_simhash old_lines new_lines k)
    = seq 0 (List.length old_lines) /\
  Forall (fun '(_, l) => List.length l = Nat.min k (List.length new_lines) /\ NoDup l /\
                         Forall (fun j => j < List.length new_lines) l)
    (SimhashIndex.generate_candidate_sets compute_simhash old_lines new_lines k) /\
  candidates_in_range (List.length old_lines) (List.length new_lines)
    (SimhashIndex.generate_candidate_sets compute_simhash old_lines new_lines k) = true.
Proof.
  assert (H : map fst (SimhashIndex.generate_candidate_sets compute_simhash old_lines new_lines k)
                = seq 0 (List.length old_lines) /\
              Forall (fun '(_, l) => List.length l = Nat.min k (List.length new_lines) /\ NoDup l /\
                                     Forall (fun j => j < List.length new_lines) l)
                (SimhashIndex.generate_candidate_sets compute_simhash old_lines new_lines k)).
  { unfold SimhashIndex.generate_candidate_sets, SimhashIndex.enumerate.
    assert (Hl : List.length (SimhashIndex.hashes compute_simhash new_lines) = List.length new_lines)
      by apply length_map.
    generalize 0 as s. induction old_lines as [|x old IH]; intros s; simpl.
    - split; [reflexivity|constructor].
    - destruct (IH (S s)) as (H1 & H2). rewrite H1. split; [reflexivity|].
      destruct (top_k_props compute_simhash (SimhashIndex.hashes compute_simhash new_lines) x k)
        as (L & N & F). rewrite Hl in L, F.
      constructor; [|exact H2]. split; [rewrite length_map; exact L|split; [exact N|]].
      apply Forall_map. exact F. }
  destruct H as [H1 H2]. split; [exact H1|split; [exact H2|]].
  unfold candidates_in_range. apply forallb_forall. intros [i l] Hin.
  rewrite Forall_forall in H2. specialize (H2 _ Hin) as (_ & _ & H3).
  apply (in_map fst) in Hin. rewrite H1 in Hin. apply in_seq in Hin.
  apply andb_true_intro; split; [apply Nat.ltb_lt; simpl in Hin; lia|].
  apply forallb_forall. intros j Hj. rewrite Forall_forall in H3. apply Nat.ltb_lt, H3, Hj.
Qed.

(** ** Reading a file into lines *)
Open Scope nat_scope.
Lemma split_l_pieces c l cur :
  forall x, In x (Str.split_l c l cur) -> ~ In c cur -> ~ In c x /\ forall d, In d x -> In d l \/ In d cur.
Proof.
  revert cur; induction l as [|e l IH]; intros cur x Hx Hc; simpl in Hx.
  - destruct Hx as [<-|[]]. split; [rewrite <- in_rev; exact Hc|].
    intros d Hd; right; apply in_rev; exact Hd.
  - destruct (Ascii.eqb c e) eqn:E.
    + destruct Hx as [<-|Hx].
      * split; [rewrite <- in_rev; exact Hc|]. intros d Hd; right; apply in_rev; exact Hd.
      * destruct (IH [] x Hx (fun H => H)) as [H1 H2]. split; [exact H1|].
        intros d Hd. destruct (H2 d Hd) as [H|[]]. left; right; exact H.
    + apply Ascii.eqb_neq in E.
      destruct (IH (e :: cur) x Hx) as [H1 H2].
      { intros [H|H]; [congruence|contradiction]. }
      split; [exact H1|]. intros d Hd. destruct (H2 d Hd) as [H|[H|H]]; simpl; auto.
Qed.

Lemma universal_newlines_no_cr l : ~ In cr (universal_newlines l).
Proof.
  induction l as [l IH] using (induction_ltof1 _ (@List.length ascii)); unfold ltof in IH.
  destruct l as [|c l]; simpl; [auto|].
  destruct (Ascii.eqb c cr) eqn:E.
  - destruct l as [|d l]; [simpl; intros [H|[]]; discriminate|].
    destruct (Ascii.eqb d newline).
    + intros [H|H]; [discriminate|]. apply (IH l); [simpl; lia|exact H].
    + intros [H|H]; [discriminate|]. apply (IH (d :: l)); [simpl; lia|exact H].
  - apply Ascii.eqb_neq in E. intros [H|H]; [congruence|]. apply (IH l); [simpl; lia|exact H].
Qed.

Lemma read_file_pieces text :
  forall x, In x (match rev (Str.split_l newline (universal_newlines (chars text)) []) with
                  | [] :: rest => rev rest
                  | _ => Str.split_l newline (universal_newlines (chars text)) []
                  end) -> In x (Str.split_l newline (universal_newlines (chars text)) []).
Proof.
  intros x. destruct (rev _) as [|[|a p] rest] eqn:E; auto.
  intros Hx. rewrite <- (rev_involutive (Str.split_l _ _ _)), E. simpl.
  apply in_or_app; left; exact Hx.
Qed.

(** No line returned by [read_file] contains a line feed or a carriage return. *)
Theorem read_file_no_line_breaks (text : string) :
  Forall (fun line => ~ In newline (chars line) /\ ~ In cr (chars line)) (read_file text).
Proof.
  unfold read_file. apply Forall_map, Forall_forall. intros x Hx.
  rewrite chars_str. apply read_file_pieces in Hx.
  destruct (split_l_pieces _ _ _ x Hx (fun H => H)) as [H1 H2]. split; [exact H1|].
  intros H. destruct (H2 _ H) as [H'|[]]. exact (universal_newlines_no_cr _ H').
Qed.

Lemma split_l_concat c l cur :
  List.concat (map (fun p => p ++ [c]) (Str.split_l c l cur)) = rev cur ++ l ++ [c].
Proof.
  revert cur; induction l as [|d l IH]; intros cur; simpl.
  - rewrite app_nil_r. reflexivity.
  - destruct (Ascii.eqb c d) eqn:E.
    + apply Ascii.eqb_eq in E; subst d. simpl. rewrite IH. simpl. rewrite <- app_assoc. reflexivity.
    + rewrite IH. simpl. rewrite <- app_assoc. reflexivity.
Qed.

(** Writing each line of [read_file] followed by a line feed gives back the
    text after universal-newline translation, with a line feed added at the
    end if it had none. A text without carriage returns is left unchanged by
    that translation. *)
Theorem read_file_round_trip (text : string) :
  List.concat (map (fun line => chars line ++ [newline]) (read_file text)) =
  universal_newlines (chars text) ++
    match rev (universal_newlines (chars text)) with
    | c :: _ => if Ascii.eqb c newline then [] else [newline]
    | [] => []
    end /\
  (~ In cr (chars text) -> universal_newlines (chars text) = chars text).
Proof.
  split.
  - unfold read_file. set (u := universal_newlines (chars text)).
    rewrite map_map. rewrite (map_ext _ (fun p => p ++ [newline])) by (intros; rewrite chars_str; reflexivity).
    pose proof (split_l_concat newline u []) as HJ. simpl in HJ.
    pose proof (split_l_pieces newline u []) as HP.
    set (P := Str.split_l newline u []) in *.
    destruct (rev P) as [|p rest] eqn:E.
    + apply (f_equal (@rev _)) in E. rewrite rev_involutive in E. simpl in E.
      rewrite E in HJ. simpl in HJ. destruct u; discriminate.
    + assert (EP : P = rev rest ++ [p]) by (rewrite <- (rev_involutive P), E; reflexivity).
      rewrite EP in HJ. rewrite map_app, concat_app in HJ. simpl in HJ.
      destruct p as [|a p].
      * simpl in HJ. apply app_inv_tail in HJ. rewrite <- HJ.
        destruct rest as [|q rest].
        -- reflexivity.
        -- simpl. rewrite map_app, concat_app. simpl. rewrite app_nil_r, !rev_app_distr. simpl.
           rewrite app_nil_r. reflexivity.
      * rewrite EP, map_app, concat_app. simpl. rewrite app_nil_r.
        rewrite app_nil_r, app_assoc in HJ. apply app_inv_tail in HJ. rewrite <- HJ.
        rewrite rev_app_distr.
        assert (Hnl : ~ In newline (a :: p)).
        { apply (HP (a :: p)); [rewrite EP; apply in_or_app; right; left; reflexivity|auto]. }
        destruct (rev (a :: p)) as [|z zs] eqn:Ez.
        { apply (f_equal (@List.length _)) in Ez. rewrite length_rev in Ez. discriminate. }
        simpl. assert (Hz : In z (a :: p)) by (apply in_rev; rewrite Ez; left; reflexivity).
        destruct (Ascii.eqb z newline) eqn:Ezn.
        { apply Ascii.eqb_eq in Ezn; subst z. contradiction. }
        rewrite <- app_assoc. reflexivity.
  - intros H. induction (chars text) as [|c l IH]; simpl; [reflexivity|].
    destruct (Ascii.eqb c cr) eqn:E.
    + apply Ascii.eqb_eq in E; subst c. exfalso; apply H; left; reflexivity.
    + rewrite IH; [reflexivity|]. intros H'; apply H; right; exact H'.
Qed.

(** ** Line normalisation *)
Open Scope nat_scope.
Lemma drop_space_head l :
  match Str.drop_space l with c :: _ => is_space c = false | [] => True end.
Proof.
  induction l as [|c l IH]; simpl; [exact I|].
  destruct (is_space c) eqn:E; [exact IH|exact E].
Qed.

Lemma drop_space_suffix l : exists pre, l = pre ++ Str.drop_space l.
Proof.
  induction l as [|c l [pre IH]]; simpl; [exists []; reflexivity|].
  destruct (is_space c); [exists (c :: pre); simpl; f_equal; exact IH|exists []; reflexivity].
Qed.

Lemma strip_props s :
  match chars (Str.strip s) with c :: _ => is_space c = false | [] => True end /\
  match rev (chars (Str.strip s)) with c :: _ => is_space c = false | [] => True end /\
  forall x, In x (chars (Str.strip s)) -> In x (chars s).
Proof.
  unfold Str.strip. rewrite chars_str.
  set (l1 := Str.drop_space (chars s)).
  destruct (drop_space_suffix (rev l1)) as [pre Hpre].
  assert (El1 : l1 = rev (Str.drop_space (rev l1)) ++ rev pre).
  { rewrite <- rev_app_distr, <- Hpre, rev_involutive. reflexivity. }
  destruct (drop_space_suffix (chars s)) as [pre0 Hpre0]. fold l1 in Hpre0.
  split; [|split].
  - pose proof (drop_space_head (chars s)) as H. fold l1 in H. rewrite El1 in H.
    destruct (rev (Str.drop_space (rev l1))) as [|c r]; [exact I|exact H].
  - rewrite rev_involutive. apply drop_space_head.
  - intros x Hx. rewrite Hpre0. apply in_or_app; right. rewrite El1. apply in_or_app; left; exact Hx.
Qed.

(** A line returned by [normalize_line] neither starts nor ends with a
    whitespace character. *)
Theorem normalize_line_stripped (remove_comments lowercase : bool) (line : string) :
  match chars (normalize_line remove_comments lowercase line) with
  | c :: _ => is_space c = false | [] => True end /\
  match rev (chars (normalize_line remove_comments lowercase line)) with
  | c :: _ => is_space c = false | [] => True end.
Proof.
  unfold normalize_line. cbv zeta.
  match goal with |- context [chars (Str.strip (if lowercase then ?t else ?u))] =>
    destruct (strip_props (if lowercase then t else u)) as (H1 & H2 & _) end.
  split; assumption.
Qed.

(** With [lowercase] set, [normalize_line] returns no uppercase ASCII letter. *)
Theorem normalize_line_lowercase (remove_comments : bool) (line : string) :
  Forall (fun c => is_upper c = false) (chars (normalize_line remove_comments true line)).
Proof.
  unfold normalize_line. cbv zeta.
  match goal with |- Forall _ (chars (Str.strip (Str.lower ?t))) => set (t0 := t) end.
  destruct (strip_props (Str.lower t0)) as (_ & _ & H).
  apply Forall_forall. intros x Hx. apply H in Hx.
  unfold Str.lower in Hx. rewrite chars_str in Hx. apply in_map_iff in Hx as [c [<- _]].
  unfold Str.lower_char. destruct (is_upper c) eqn:E; [|exact E].
  unfold is_upper, in_range, code in *. apply andb_prop in E as [E1 E2].
  apply Nat.leb_le in E1, E2. rewrite nat_ascii_embedding by lia.
  apply andb_false_intro2. apply Nat.leb_gt. lia.
Qed.

(** When no line contains the block-comment opener, [normalize_block_comments]
    returns the lines unchanged. *)
Theorem normalize_block_comments_no_opener (ls : list string) :
  forallb (fun l => negb (search block_opener l)) ls = true ->
  normalize_block_comments ls = Some ls.
Proof.
  intros H. apply block_loop_no_opener. intros l Hl.
  rewrite forallb_forall in H. apply negb_true_iff, H, Hl.
Qed.

(** ** Similarity scores *)
Open Scope nat_scope.
Lemma next_row_length c b diag up left :
  List.length up = List.length b -> List.length (Similarity.next_row c b diag up left) = List.length b.
Proof.
  revert diag up left; induction b as [|d b IH]; intros diag [|u up] left H; simpl in *; try lia.
  f_equal. apply IH. lia.
Qed.

Lemma next_row_nth c b diag up left :
  List.length up = List.length b ->
  forall j, j < List.length b ->
  nth j (Similarity.next_row c b diag up left) 0 =
  Nat.min (Nat.min (nth j up 0 + 1) (nth j (left :: Similarity.next_row c b diag up left) 0 + 1))
          (nth j (diag :: up) 0 + lev_cost c (nth j b "000"%char)).
Proof.
  revert diag up left; induction b as [|d b IH]; intros diag [|u up] left H j Hj; simpl in *; try lia.
  destruct j as [|j]; [reflexivity|].
  rewrite (IH u up _ ltac:(lia) j ltac:(lia)). reflexivity.
Qed.

Lemma step_row_spec b d0 rest c :
  List.length rest = List.length b ->
  List.length (Similarity.step_row b (d0 :: rest) c) = S (List.length b) /\
  nth 0 (Similarity.step_row b (d0 :: rest) c) 0 = S d0 /\
  forall j, j < List.length b ->
    nth (S j) (Similarity.step_row b (d0 :: rest) c) 0 =
    Nat.min (Nat.min (nth (S j) (d0 :: rest) 0 + 1) (nth j (Similarity.step_row b (d0 :: rest) c) 0 + 1))
            (nth j (d0 :: rest) 0 + lev_cost c (nth j b "000"%char)).
Proof.
  intros H. unfold Similarity.step_row. split; [simpl; rewrite next_row_length; auto|].
  split; [reflexivity|]. intros j Hj. simpl. apply next_row_nth; auto.
Qed.

Lemma step_row_bound b row c (B B' : nat -> nat) :
  row_bound (List.length b) B row ->
  S (B 0) <= B' 0 ->
  (forall j, j < List.length b ->
     Nat.min (Nat.min (B (S j) + 1) (B' j + 1)) (B j + lev_cost c (nth j b "000"%char)) <= B' (S j)) ->
  row_bound (List.length b) B' (Similarity.step_row b row c).
Proof.
  intros [Hl Hb] H0 HS. destruct row as [|d0 rest]; [discriminate|].
  simpl in Hl. injection Hl as Hl.
  destruct (step_row_spec b d0 rest c Hl) as (L & N0 & NS).
  split; [exact L|]. intros j Hj. induction j as [|j IHj].
  - rewrite N0. specialize (Hb 0 ltac:(lia)). simpl in Hb. lia.
  - rewrite (NS j ltac:(lia)). specialize (HS j ltac:(lia)).
    pose proof (Hb (S j) Hj). pose proof (Hb j ltac:(lia)). specialize (IHj ltac:(lia)).
    lia.
Qed.

Lemma last_nth_row (l : list nat) n : List.length l = S n -> last l 0 = nth n l 0.
Proof.
  revert n; induction l as [|x l IH]; intros n H; simpl in *; [discriminate|].
  destruct l as [|y l]; simpl in *; [injection H as <-; reflexivity|].
  destruct n as [|n]; [discriminate|]. apply IH. lia.
Qed.

Lemma row0_bound n : row_bound n (fun j => j) (seq 0 (S n)).
Proof.
  split; [apply length_seq|]. intros j Hj. rewrite seq_nth by lia. lia.
Qed.

Lemma fold_rows_max b a i row :
  row_bound (List.length b) (fun j => Nat.max i j) row ->
  row_bound (List.length b) (fun j => Nat.max (i + List.length a) j) (fold_left (Similarity.step_row b) a row).
Proof.
  revert i row; induction a as [|c a IH]; intros i row H; simpl.
  - rewrite Nat.add_0_r. exact H.
  - replace (i + S (List.length a)) with (S i + List.length a) by lia. apply IH.
    apply (step_row_bound _ _ _ _ _ H); [lia|].
    intros j _. unfold lev_cost. destruct (Ascii.eqb _ _); lia.
Qed.

Lemma levenshtein_l_le_max a b : Similarity.levenshtein_l a b <= Nat.max (List.length a) (List.length b).
Proof.
  unfold Similarity.levenshtein_l.
  assert (H : row_bound (List.length b) (fun j => Nat.max 0 j) (seq 0 (S (List.length b)))).
  { destruct (row0_bound (List.length b)) as [L B]. split; [exact L|]. intros j Hj. specialize (B j Hj). lia. }
  destruct (fold_rows_max b a 0 _ H) as [L B]. rewrite (last_nth_row _ _ L).
  specialize (B (List.length b) (le_n _)). simpl in B. exact B.
Qed.

Lemma nth_skipn_hd {A} (l : list A) i c l' d : skipn i l = c :: l' -> nth i l d = c.
Proof.
  revert i; induction l as [|x l IH]; intros [|i] H; simpl in *; try discriminate.
  - injection H as -> _. reflexivity.
  - apply IH. exact H.
Qed.

Lemma skipn_S_cons {A} (l : list A) i c l' : skipn i l = c :: l' -> skipn (S i) l = l'.
Proof.
  revert i; induction l as [|x l IH]; intros [|i] H; simpl in *; try discriminate.
  - injection H as _ ->. reflexivity.
  - apply IH. exact H.
Qed.

Lemma fold_rows_self b l i row :
  skipn i b = l -> i <= List.length b ->
  row_bound (List.length b) (fun j => Nat.max i j - Nat.min i j) row ->
  row_bound (List.length b) (fun j => Nat.max (List.length b) j - Nat.min (List.length b) j)
    (fold_left (Similarity.step_row b) l row).
Proof.
  revert i row; induction l as [|c l IH]; intros i row Hs Hib H; simpl.
  - assert (Hi : List.length b <= i).
    { destruct (Nat.le_gt_cases (List.length b) i) as [?|Hlt]; [assumption|].
      apply (f_equal (@List.length _)) in Hs. rewrite length_skipn in Hs. simpl in Hs. lia. }
    destruct H as [L B]. split; [exact L|]. intros j Hj. specialize (B j Hj). lia.
  - assert (Hc : nth i b "000"%char = c) by (eapply nth_skipn_hd; exact Hs).
    assert (Hi : i < List.length b).
    { destruct (Nat.le_gt_cases (List.length b) i) as [Hle|?]; [|assumption].
      rewrite skipn_all2 in Hs by exact Hle. discriminate. }
    apply (IH (S i)).
    + eapply skipn_S_cons; exact Hs.
    + exact Hi.
    + apply (step_row_bound _ _ _ _ _ H); [lia|].
      intros j Hj. unfold lev_cost. cbv beta.
      destruct (Nat.lt_trichotomy j i) as [Hlt|[->|Hgt]].
      * destruct (Ascii.eqb _ _); lia.
      * rewrite Hc, (proj2 (Ascii.eqb_eq c c) eq_refl). lia.
      * destruct (Ascii.eqb _ _); lia.
Qed.

Lemma levenshtein_l_self b : Similarity.levenshtein_l b b = 0.
Proof.
  unfold Similarity.levenshtein_l.
  assert (H : row_bound (List.length b) (fun j => Nat.max 0 j - Nat.min 0 j) (seq 0 (S (List.length b)))).
  { destruct (row0_bound (List.length b)) as [L B]. split; [exact L|]. intros j Hj. specialize (B j Hj). lia. }
  destruct (fold_rows_self b b 0 _ eq_refl (Nat.le_0_l _) H) as [L B].
  rewrite (last_nth_row _ _ L). specialize (B (List.length b) (le_n _)). lia.
Qed.

Lemma length_chars s : List.length (chars s) = String.length s.
Proof. induction s as [|c s IH]; simpl; [reflexivity|rewrite IH; reflexivity]. Qed.

Open Scope Q_scope.

Lemma ratio_bounds (d m : nat) : (d <= m)%nat ->
  0 <= inject_Z (Z.of_nat d) / inject_Z (Z.of_nat m) <= 1.
Proof.
  intros H. destruct m as [|m].
  - assert (d = 0)%nat as -> by lia. unfold Qdiv, Qle; simpl; lia.
  - split.
    + apply Qle_shift_div_l; [unfold Qlt; simpl; lia|]. unfold Qle; simpl; lia.
    + apply Qle_shift_div_r; [unfold Qlt; simpl; lia|]. unfold Qle; simpl; lia.
Qed.

(** [content_similarity(a, b)] lies between 0 and 1. *)
Theorem content_similarity_range (a b : string) :
  0 <= Similarity.content_similarity a b <= 1.
Proof.
  unfold Similarity.content_similarity.
  destruct (Similarity.is_empty a && Similarity.is_empty b); [split; unfold Qle; simpl; lia|].
  destruct (Similarity.is_empty a || Similarity.is_empty b); [split; unfold Qle; simpl; lia|].
  cbv zeta.
  set (na := Similarity.normalize_code a). set (nb := Similarity.normalize_code b).
  assert (Hd : (Similarity.levenshtein na nb <= Nat.max (String.length na) (String.length nb))%nat).
  { unfold Similarity.levenshtein. rewrite <- !length_chars. apply levenshtein_l_le_max. }
  destruct (ratio_bounds _ _ Hd) as [H1 H2].
  set (r := inject_Z _ / inject_Z _) in *. split.
  - apply (Qplus_le_l _ _ r). ring_simplify. exact H2.
  - apply (Qplus_le_l _ _ r). ring_simplify. apply (Qplus_le_l _ _ (-1)). ring_simplify. exact H1.
Qed.

(** [content_similarity(a, a)] is 1 for every line [a]. *)
Theorem content_similarity_refl (a : string) :
  Similarity.content_similarity a a == 1.
Proof.
  unfold Similarity.content_similarity.
  destruct (Similarity.is_empty a); simpl; [reflexivity|].
  unfold Similarity.levenshtein. rewrite levenshtein_l_self. unfold Qdiv. simpl. ring.
Qed.

Lemma qmin_le_one x : 0 <= x -> 0 <= qmin 1 x <= 1.
Proof.
  intros H. unfold qmin, qgt. destruct (Qle_bool 1 x) eqn:E; simpl.
  - split; unfold Qle; simpl; lia.
  - split; [exact H|].
    apply Qlt_le_weak, Qnot_le_lt. intros H'. apply Qle_bool_iff in H'. congruence.
Qed.

(** [_calculate_name_similarity] lies between 0 and 1. *)
Theorem calculate_name_similarity_range (old_name new_name : string) :
  0 <= calculate_name_similarity old_name new_name <= 1.
Proof.
  unfold calculate_name_similarity.
  destruct (String.eqb old_name new_name); [split; unfold Qle; simpl; lia|].
  destruct (find _ rename_patterns) as [[[p t] conf]|] eqn:F.
  - apply find_some in F as [F _]. simpl in F.
    repeat destruct F as [F|F]; try injection F as <- <- <-; try contradiction;
      split; unfold Qle; simpl; lia.
  - cbv zeta. destruct (Nat.eqb _ 0); [split; unfold Qle; simpl; lia|].
    assert (Hd : (Similarity.levenshtein old_name new_name <= Nat.max (String.length old_name) (String.length new_name))%nat).
    { unfold Similarity.levenshtein. rewrite <- !length_chars. apply levenshtein_l_le_max. }
    destruct (ratio_bounds _ _ Hd) as [H1 H2]. unfold qn.
    set (r := inject_Z _ / inject_Z _) in *.
    assert (L : 0 <= 1 - r <= 1).
    { split.
      - apply (Qplus_le_l _ _ r). ring_simplify. exact H2.
      - apply (Qplus_le_l _ _ r). ring_simplify. apply (Qplus_le_l _ _ (-1)). ring_simplify. exact H1. }
    destruct (3 <=? _)%nat; [|exact L].
    apply qmin_le_one. apply (Qle_trans _ (1 - r)); [apply L|].
    apply (Qplus_le_l _ _ (- (1 - r))). ring_simplify. unfold Qle; simpl; lia.
Qed.

(** ** Context, control flow and method boundaries *)
Open Scope nat_scope.
Lemma length_set_inter a b : List.length (set_inter a b) <= List.length a.
Proof. unfold set_inter. induction a as [|x a IH]; simpl; [lia|]. destruct (in_str x b); simpl; lia. Qed.

Lemma length_set_union a b : List.length a <= List.length (set_union a b).
Proof.
  unfold set_union. revert a; induction b as [|x b IH]; intros a; simpl; [lia|].
  etransitivity; [|apply IH]. unfold set_add. destruct (in_str x a); [lia|]. rewrite length_app; simpl; lia.
Qed.

Open Scope Q_scope.

Lemma context_part_range (a b : list string) (weight : Q) : 0 <= weight ->
  0 <= (if (0 <? List.length (set_union a b))%nat
        then qn (List.length (set_inter a b)) / qn (List.length (set_union a b)) * weight else 0) <= weight.
Proof.
  intros Hw. destruct (0 <? _)%nat; [|split; [apply Qle_refl|exact Hw]].
  pose proof (Nat.le_trans _ _ _ (length_set_inter a b) (length_set_union a b)) as H.
  destruct (ratio_bounds _ _ H) as [H1 H2]. unfold qn.
  set (r := inject_Z _ / inject_Z _) in *. split.
  - apply Qmult_le_0_compat; assumption.
  - rewrite <- (Qmult_1_l weight) at 2. apply Qmult_le_compat_r; assumption.
Qed.

(** [_calculate_context_similarity] lies between 0 and 1. *)
Theorem calculate_context_similarity_range (o n : var_context) :
  0 <= calculate_context_similarity o n <= 1.
Proof.
  unfold calculate_context_similarity. cbv beta.
  destruct (context_part_range (methods o) (methods n) (3 # 10) ltac:(unfold Qle; simpl; lia)) as [A1 A2].
  destruct (context_part_range (operations o) (operations n) (4 # 10) ltac:(unfold Qle; simpl; lia)) as [B1 B2].
  destruct (context_part_range (surrounding_contexts o) (surrounding_contexts n) (3 # 10)
              ltac:(unfold Qle; simpl; lia)) as [C1 C2].
  split.
  - apply (Qle_trans _ (0 + 0 + 0)); [unfold Qle; simpl; lia|].
    apply Qplus_le_compat; [apply Qplus_le_compat|]; assumption.
  - apply (Qle_trans _ ((3 # 10) + (4 # 10) + (3 # 10))); [|unfold Qle; simpl; lia].
    apply Qplus_le_compat; [apply Qplus_le_compat|]; assumption.
Qed.

(** [_calculate_rewrite_confidence] is at most 0.9, and it is 0 exactly when
    the two lines have the same numbers of early returns, conditional blocks
    and null checks. *)
Theorem calculate_rewrite_confidence_spec (o n : flow) :
  calculate_rewrite_confidence o n <= 9 # 10 /\
  (calculate_rewrite_confidence o n == 0 <->
   early_returns o = early_returns n /\ conditional_blocks o = conditional_blocks n /\
   null_checks o = null_checks n).
Proof.
  unfold calculate_rewrite_confidence, qmin, qgt.
  destruct (Nat.eqb_spec (early_returns o) (early_returns n));
  destruct (Nat.eqb_spec (conditional_blocks o) (conditional_blocks n));
  destruct (Nat.eqb_spec (null_checks o) (null_checks n));
  vm_compute; (split; [discriminate|split; [intros H; try discriminate; tauto|]]);
  intros (? & ? & ?); (reflexivity || contradiction).
Qed.

Open Scope nat_scope.

Lemma dict_set_in {K V : Type} (keq : K -> K -> bool) (d : list (K * V)) (k : K) (v : V) (k0 : K) (v0 : V) :
  In (k0, v0) (Dict.set keq d k v) -> v0 = v \/ In (k0, v0) d.
Proof.
  induction d as [|[k' v'] d IH]; simpl; intros H.
  - destruct H as [H|[]]; injection H as _ <-; left; reflexivity.
  - destruct (keq k k').
    + destruct H as [H|H]; [injection H as _ <-; left; reflexivity|right; right; exact H].
    + destruct H as [H|H]; [right; left; exact H|]. destruct (IH H); auto.
Qed.

Lemma boundaries_loop_ranges lines i bd current brace start :
  Forall (fun '(_, (s, e)) => s < e < i) bd ->
  (current <> None -> start < i) ->
  Forall (fun '(_, (s, e)) => s < e < i + List.length lines)
    (boundaries_loop lines i bd current brace start).
Proof.
  revert i bd current brace start.
  induction lines as [|line rest IH]; intros i bd current brace start Hbd Hst; simpl.
  - rewrite Nat.add_0_r. exact Hbd.
  - replace (i + S (List.length rest)) with (S i + List.length rest) by lia.
    assert (Hbd' : Forall (fun '(_, (s, e)) => s < e < S i) bd).
    { eapply Forall_impl; [|exact Hbd]. intros [? [s e]]; lia. }
    destruct (match_ method_pattern (Str.strip line)) as [[? g]|].
    + destruct current as [name|]; cbn beta iota zeta; apply IH; auto.
      intros _; specialize (Hst ltac:(discriminate)); lia.
    + destruct current as [name|]; [|apply IH; auto; intros H; congruence].
      specialize (Hst ltac:(discriminate)).
      destruct (truthy name); [|apply IH; auto; intros _; lia].
      destruct (_ && _)%bool; apply IH; auto; try (intros _; lia); try (intros H; congruence).
      apply Forall_forall. intros [k0 [s e]] Hin.
      destruct (dict_set_in _ _ _ _ _ _ Hin) as [E|Hin'].
      * injection E as -> ->. lia.
      * rewrite Forall_forall in Hbd'. exact (Hbd' _ Hin').
Qed.

(** Every method found by [_find_method_boundaries] spans lines [start < end]
    inside the file. *)
Theorem find_method_boundaries_ranges (lines : list string) :
  Forall (fun '(_, (s, e)) => s < e < List.length lines) (find_method_boundaries lines).
Proof.
  apply (boundaries_loop_ranges lines 0 [] None 0%Z 0); [constructor|congruence].
Qed.

(** ** Conflict resolution *)
Open Scope nat_scope.
Lemma offsets_range : Forall (fun off => off <> 0%Z /\ (-15 <= off <= 15)%Z) offsets.
Proof. unfold offsets. simpl. repeat constructor; lia. Qed.

Lemma find_valid_alternative_full (original_new_idx : nat) (new_lines : list string) (old_idx : nat)
    (resolved_matches : match_dict) (m : nat) :
  find_valid_alternative original_new_idx new_lines old_idx resolved_matches = Some m ->
  m < List.length new_lines /\ m <> original_new_idx /\
  Nat.max m original_new_idx - Nat.min m original_new_idx <= 15 /\
  Forall (fun e => fst (snd e) <> m) resolved_matches /\
  is_semantically_reasonable_match old_idx m new_lines = Some true.
Proof.
  unfold find_valid_alternative. pose proof offsets_range as H. revert H.
  generalize offsets as offs. induction offs as [|off offs IH]; intros Hf E; [discriminate|].
  inversion Hf as [|? ? [Hoff Hr] Hf']; subst.
  cbn beta iota in E. revert E.
  destruct (Z.leb 0 _ && Z.ltb _ _)%bool eqn:Hb; [|apply IH; auto].
  apply andb_prop in Hb as [Hb1 Hb2]. apply Z.leb_le in Hb1. apply Z.ltb_lt in Hb2.
  destruct (existsb _ resolved_matches) eqn:Hex; [apply IH; auto|].
  destruct (is_semantically_reasonable_match old_idx (Z.to_nat (Z.of_nat original_new_idx + off)) new_lines)
    as [[|]|] eqn:Hs;
    [|apply IH; auto|apply IH; auto].
  intros E.
  injection E as <-. split; [lia|]. split; [lia|]. split; [lia|]. split; [|exact Hs].
  apply Forall_forall. intros [o [n s]] Hin Heq. simpl in Heq. subst n.
  assert (Hc : existsb (fun '(_, (n, _)) => Nat.eqb n (Z.to_nat (Z.of_nat original_new_idx + off)))
                 resolved_matches = true).
  { apply existsb_exists. exists (o, (Z.to_nat (Z.of_nat original_new_idx + off), s)).
    split; [exact Hin|apply Nat.eqb_refl]. }
  congruence.
Qed.

(** An alternative returned by [_find_valid_alternative] is a line of the new
    file other than the original one, at most 15 lines away from it, not the
    target of a resolved match, and a semantically reasonable match. *)
Theorem find_valid_alternative_spec (original_new_idx : nat) (new_lines : list string) (old_idx : nat)
    (resolved_matches : match_dict) (m : nat) :
  find_valid_alternative original_new_idx new_lines old_idx resolved_matches = Some m ->
  m < List.length new_lines /\ m <> original_new_idx /\
  Nat.max m original_new_idx - Nat.min m original_new_idx <= 15 /\
  Forall (fun e => fst (snd e) <> m) resolved_matches /\
  is_semantically_reasonable_match old_idx m new_lines = Some true.
Proof. apply find_valid_alternative_full. Qed.

Lemma find_valid_alternative_props original_new_idx new_lines old_idx resolved_matches m :
  find_valid_alternative original_new_idx new_lines old_idx resolved_matches = Some m ->
  m < List.length new_lines /\ m <> original_new_idx /\
  Nat.max m original_new_idx - Nat.min m original_new_idx <= 15.
Proof. intros H. apply find_valid_alternative_full in H. tauto. Qed.

Lemma dict_set_in_eq {V : Type} (d : list (nat * V)) k v k0 v0 :
  In (k0, v0) (Dict.set Nat.eqb d k v) -> (k0 = k /\ v0 = v) \/ In (k0, v0) d.
Proof.
  induction d as [|[k' v'] d IH]; simpl; intros H.
  - destruct H as [H|[]]; injection H as <- <-; left; auto.
  - destruct (Nat.eqb_spec k k') as [<-|].
    + destruct H as [H|H]; [injection H as <- <-; left; auto|right; right; exact H].
    + destruct H as [H|H]; [right; left; exact H|]. destruct (IH H); auto.
Qed.

Lemma dict_get_in_eq {V : Type} (d : list (nat * V)) k v :
  Dict.get Nat.eqb d k = Some v -> In (k, v) d.
Proof.
  induction d as [|[k' v'] d IH]; simpl; intros H; [discriminate|].
  destruct (Nat.eqb_spec k k') as [<-|]; [injection H as <-; left; reflexivity|right; auto].
Qed.

Lemma forall_set_eq {V : Type} (P : nat * V -> Prop) d k v :
  Forall P d -> P (k, v) -> Forall P (Dict.set Nat.eqb d k v).
Proof.
  intros Hd Hk. apply Forall_forall. intros [k0 v0] Hin.
  destruct (dict_set_in_eq _ _ _ _ _ Hin) as [[-> ->]|H]; [exact Hk|].
  rewrite Forall_forall in Hd; auto.
Qed.

Lemma group_by_new_in matches :
  forall n0 items, In (n0, items) (group_by_new matches) ->
  forall o s, In (o, s) items -> In (o, (n0, s)) matches.
Proof.
  unfold group_by_new.
  apply (fold_left_inv (fun d => forall n0 items, In (n0, items) d ->
                          forall o s, In (o, s) items -> In (o, (n0, s)) matches)).
  - intros ? ? [].
  - intros d [o [n s]] Hx Hd n0 items Hin o' s' Hos.
    destruct (dict_set_in_eq _ _ _ _ _ Hin) as [[-> ->]|H]; [|eapply Hd; eauto].
    apply in_app_or in Hos as [Hos|[E|[]]].
    + destruct (Dict.get Nat.eqb d n) as [l|] eqn:E; [|contradiction].
      apply dict_get_in_eq in E. eapply Hd; eauto.
    + injection E as <- <-. exact Hx.
Qed.

Lemma insert_desc_in x l y : In y (insert_desc x l) -> y = x \/ In y l.
Proof.
  induction l as [|z l IH]; simpl; [intros [<-|[]]; auto|].
  destruct (qgt (snd x) (snd z)); simpl; intros [H|H]; auto.
  destruct (IH H); auto.
Qed.

Lemma sort_desc_in l y : In y (sort_desc l) -> In y l.
Proof.
  unfold sort_desc.
  assert (H : forall acc, In y (fold_left (fun acc x => insert_desc x acc) l acc) -> In y acc \/ In y l).
  { induction l as [|x l IH]; intros acc H; simpl in *; [auto|].
    destruct (IH _ H) as [H'|H']; auto. destruct (insert_desc_in _ _ _ H'); auto. }
  intros Hy. destruct (H [] Hy) as [[]|H']; exact H'.
Qed.

(** Every match kept by [resolve_conflicts] comes from an input match of the
    same old line with the same score, and keeps its new line or moves it to
    another line of the new file at most 15 lines away. *)
Theorem resolve_conflicts_provenance (st : state) (matches : match_dict) (new_lines : list string)
    (resolved : match_dict) :
  resolve_conflicts st matches new_lines = Some resolved ->
  Forall (provenance matches new_lines) resolved.
Proof.
  unfold resolve_conflicts. intros H. revert H.
  apply (fold_left_inv (fun acc => forall r, acc = Some r -> Forall (provenance matches new_lines) r));
    [intros r E; injection E as <-; constructor|].
  intros acc [new_idx old_items] Hg IH r.
  destruct acc as [res|]; [|discriminate]. specialize (IH res eq_refl).
  pose proof (group_by_new_in matches new_idx old_items Hg) as Hitems.
  destruct old_items as [|[o s] [|y ys]] eqn:Eitems.
  - (* an empty group: sorted to nothing *)
    simpl. intros E; injection E as <-; exact IH.
  - intros E; injection E as <-. apply forall_set_eq; [exact IH|].
    exists new_idx. split; [apply Hitems; left; reflexivity|left; reflexivity].
  - rewrite <- Eitems. rewrite <- Eitems in Hitems.
    destruct (sort_desc old_items) as [|[best bs] losers] eqn:Es; [intros E; injection E as <-; exact IH|].
    assert (Hin : forall x, In x ((best, bs) :: losers) -> In x old_items)
      by (intros x Hx; apply sort_desc_in; rewrite Es; exact Hx).
    apply (fold_left_inv (fun acc => forall r, acc = Some r -> Forall (provenance matches new_lines) r)).
    + intros r' E; injection E as <-. apply forall_set_eq; [exact IH|].
      exists new_idx. split; [apply Hitems, Hin; left; reflexivity|left; reflexivity].
    + intros acc [o' s'] Hl IH' r'.
      destruct acc as [res'|]; [|discriminate]. specialize (IH' res' eq_refl).
      destruct (is_semantically_reasonable_match o' new_idx new_lines) as [sr|]; [|discriminate].
      destruct (_ && sr)%bool; [|intros E; injection E as <-; exact IH'].
      destruct (find_valid_alternative new_idx new_lines o' res') as [nearby|] eqn:Ef;
        [|intros E; injection E as <-; exact IH'].
      destruct (negb (nearby =? new_idx)); [|intros E; injection E as <-; exact IH'].
      intros E; injection E as <-. apply forall_set_eq; [exact IH'|].
      apply find_valid_alternative_props in Ef as (F1 & F2 & F3).
      exists new_idx. split; [apply Hitems, Hin; right; exact Hl|right; simpl; auto].
Qed.

Lemma dict_get_none_set {V : Type} (d : list (nat * V)) k v :
  Dict.get Nat.eqb d k = None -> Dict.set Nat.eqb d k v = d ++ [(k, v)].
Proof.
  induction d as [|[k' v'] d IH]; simpl; intros H; [reflexivity|].
  destruct (k =? k'); [discriminate|]. rewrite IH; auto.
Qed.

Lemma dict_get_none {V : Type} (d : list (nat * V)) k :
  ~ In k (map fst d) -> Dict.get Nat.eqb d k = None.
Proof.
  induction d as [|[k' v'] d IH]; simpl; intros H; [reflexivity|].
  destruct (Nat.eqb_spec k k') as [->|]; [exfalso; auto|]. apply IH. auto.
Qed.

Lemma group_by_new_injective matches :
  NoDup (map (fun e => fst (snd e)) matches) ->
  group_by_new matches = map (fun '(o, (n, s)) => (n, [(o, s)])) matches.
Proof.
  unfold group_by_new. intros H.
  assert (G : forall pre, NoDup (map (fun e => fst (snd e)) (pre ++ matches)) ->
    fold_left (fun d '(old_idx, (new_idx, score)) =>
      let items := match Dict.get Nat.eqb d new_idx with Some l => l | None => [] end in
      Dict.set Nat.eqb d new_idx (items ++ [(old_idx, score)])) matches
      (map (fun '(o, (n, s)) => (n, [(o, s)])) pre)
    = map (fun '(o, (n, s)) => (n, [(o, s)])) (pre ++ matches)).
  { clear H. induction matches as [|[o [n s]] l IH]; intros pre Hn; simpl.
    - rewrite app_nil_r. reflexivity.
    - assert (Hg : Dict.get Nat.eqb (map (fun '(o, (n, s)) => (n, [(o, s)])) pre) n = None).
      { apply dict_get_none. rewrite map_map.
        rewrite map_app in Hn. simpl in Hn. apply NoDup_remove_2 in Hn.
        intros Hin; apply Hn, in_or_app; left.
        erewrite map_ext; [exact Hin|]. intros [? [? ?]]; reflexivity. }
      rewrite Hg. simpl. rewrite dict_get_none_set by exact Hg.
      replace (pre ++ (o, (n, s)) :: l) with ((pre ++ [(o, (n, s))]) ++ l) in * by (rewrite <- app_assoc; reflexivity).
      rewrite <- IH by exact Hn. rewrite map_app. reflexivity. }
  apply (G []). exact H.
Qed.

Lemma fold_singletons (f : option match_dict -> nat * list (nat * Q) -> option match_dict) :
  (forall r o n s, f (Some r) (n, [(o, s)]) = Some (Dict.set Nat.eqb r o (n, s))) ->
  forall l pre, NoDup (map fst (pre ++ l)) ->
  fold_left f (map (fun '(o, (n, s)) => (n, [(o, s)])) l) (Some pre) = Some (pre ++ l).
Proof.
  intros Hf l. induction l as [|[o [n s]] l IH]; intros pre Hn; simpl.
  - rewrite app_nil_r. reflexivity.
  - rewrite Hf. rewrite dict_get_none_set.
    + replace (pre ++ (o, (n, s)) :: l) with ((pre ++ [(o, (n, s))]) ++ l) in * by (rewrite <- app_assoc; reflexivity).
      apply IH. exact Hn.
    + apply dict_get_none. rewrite map_app in Hn. simpl in Hn. apply NoDup_remove_2 in Hn.
      intros Hin; apply Hn, in_or_app; left; exact Hin.
Qed.

(** When no two matches share an old line or a new line, [resolve_conflicts]
    returns the matches unchanged. *)
Theorem resolve_conflicts_no_conflict (st : state) (matches : match_dict) (new_lines : list string) :
  NoDup (map fst matches) ->
  NoDup (map (fun e => fst (snd e)) matches) ->
  resolve_conflicts st matches new_lines = Some matches.
Proof.
  intros Ho Hn. unfold resolve_conflicts. rewrite group_by_new_injective by exact Hn.
  match goal with |- fold_left ?f _ _ = _ => apply (fold_singletons f) end;
    [intros; reflexivity|exact Ho].
Qed.

(** ** Reordered lines *)
Open Scope nat_scope.
Lemma best_over_in {A} (score : A -> option Q) floor l x s :
  best_over score floor l = (Some x, s) -> In x l /\ score x = Some s.
Proof.
  intros H. split; [|apply (best_over_some _ _ _ _ _ H)].
  revert H. unfold best_over.
  apply (fold_left_inv (fun acc => forall x s, acc = (Some x, s) -> In x l)); [discriminate|].
  intros [b bs] y Hy IH x' s'. destruct (score y) as [sy|]; [|apply IH].
  destruct (qgt sy bs && qgt sy floor)%bool; [intros E; injection E as <- _; exact Hy|apply IH].
Qed.

Lemma set_keys_nodup {V : Type} (d : list (nat * V)) k v :
  NoDup (map fst d) -> NoDup (map fst (Dict.set Nat.eqb d k v)).
Proof.
  induction d as [|[k' v'] d IH]; simpl; intros H; [repeat constructor; auto|].
  inversion H as [|? ? Hn Hd]; subst.
  destruct (Nat.eqb_spec k k') as [<-|]; simpl; constructor; auto.
  intros Hin. apply in_map_iff in Hin as [[k0 v0] [E Hin]]. simpl in E; subst k0.
  destruct (dict_set_in_eq _ _ _ _ _ Hin) as [[-> _]|Hin']; [congruence|].
  apply Hn. apply (in_map fst) in Hin'. exact Hin'.
Qed.

Lemma set_targets (d : match_dict) k v :
  forall t, In t (map target (Dict.set Nat.eqb d k v)) -> t = target (k, v) \/ In t (map target d).
Proof.
  intros t Hin. apply in_map_iff in Hin as [[k0 v0] [<- Hin]].
  destruct (dict_set_in_eq _ _ _ _ _ Hin) as [[-> ->]|Hin']; [left; reflexivity|].
  right. apply (in_map target) in Hin'. exact Hin'.
Qed.

Lemma set_targets_nodup (d : match_dict) k v :
  NoDup (map target d) -> ~ In (target (k, v)) (map target d) ->
  NoDup (map target (Dict.set Nat.eqb d k v)).
Proof.
  induction d as [|[k' v'] d IH]; simpl; intros H Hv; [repeat constructor; auto|].
  inversion H as [|? ? Hn Hd]; subst.
  destruct (k =? k'); simpl; constructor; auto.
  intros Hin. apply set_targets in Hin as [E|Hin]; [apply Hv; left; exact E|contradiction].
Qed.

(** [detect_reorders] keeps every input match and appends new ones: each for
    an old line inside the file and not yet matched, to a distinct new line
    inside the file that no input match targets, with a score at least the
    threshold. *)
Theorem detect_reorders_extends (st : state) (old_lines new_lines : list string)
    (matches : match_dict) (threshold : Q) :
  exists extra,
    detect_reorders st old_lines new_lines matches threshold = matches ++ extra /\
    NoDup (map fst extra) /\ NoDup (map target extra) /\
    Forall (added_ok matches old_lines new_lines threshold) extra.
Proof.
  unfold detect_reorders.
  match goal with |- context [fold_left ?f ?l ?a] =>
    assert (Inv : forall extra mn, fold_left f l a = (extra, mn) ->
      NoDup (map fst extra) /\ NoDup (map target extra) /\
      Forall (added_ok matches old_lines new_lines threshold) extra /\
      (forall t, In t (map target matches) \/ In t (map target extra) -> In t mn));
    [apply (fold_left_inv (fun acc => forall extra mn, acc = (extra, mn) ->
      NoDup (map fst extra) /\ NoDup (map target extra) /\
      Forall (added_ok matches old_lines new_lines threshold) extra /\
      (forall t, In t (map target matches) \/ In t (map target extra) -> In t mn)))|]
  end.
  - intros extra mn E. injection E as <- <-. split; [constructor|split; [constructor|split; [constructor|]]].
    intros t [Ht|[]]. unfold target in Ht. erewrite map_ext; [exact Ht|]. intros [? [? ?]]; reflexivity.
  - intros [extra mn] old_idx Hold IH extra' mn'.
    specialize (IH extra mn eq_refl) as (N1 & N2 & F & Sub).
    destruct (Dict.mem Nat.eqb matches old_idx) eqn:Hm; [intros E; injection E as <- <-; auto|].
    cbv zeta.
    destruct (match structural_changes st with Some (i, _) => old_idx =? i | None => false end);
      [intros E; injection E as <- <-; auto|].
    match goal with |- context [best_over ?sc ?fl ?rg] =>
      destruct (best_over sc fl rg) as [[b|] bs] eqn:Eb; [|intros E; injection E as <- <-; auto] end.
    destruct (Qle_bool threshold bs) eqn:Ht; [|intros E; injection E as <- <-; auto].
    intros E; injection E as <- <-.
    apply best_over_in in Eb as [Hb Hs].
    assert (Hnm : ~ In b mn).
    { intros H. destruct (in_nat b mn) eqn:Ein; [discriminate|].
      assert (in_nat b mn = true) by (apply existsb_exists; exists b; split; [exact H|apply Nat.eqb_refl]).
      congruence. }
    split; [apply set_keys_nodup, N1|]. split.
    + apply set_targets_nodup; [exact N2|]. intros H; apply Hnm, Sub; right; exact H.
    + split.
      * apply Forall_forall. intros [k0 v0] Hin.
        destruct (dict_set_in_eq _ _ _ _ _ Hin) as [[-> ->]|Hin']; [|rewrite Forall_forall in F; auto].
        unfold added_ok; cbn [fst snd].
        split; [exact Hm|]. split; [unfold range in Hold; apply in_seq in Hold; lia|].
        split; [intros H; apply Hnm, Sub; left; exact H|].
        split; [|apply Qle_bool_iff, Ht].
        unfold target; cbn [fst snd].
        destruct (Dict.get String.eqb _ _) as [[s0 e0]|]; unfold range in Hb; apply in_seq in Hb; lia.
      * intros t [Ht'|Ht']; [right; apply Sub; left; exact Ht'|].
        apply set_targets in Ht' as [->|Ht']; [left; reflexivity|right; apply Sub; right; exact Ht'].
  - match goal with |- context [fold_left ?f ?l ?a] => destruct (fold_left f l a) as [extra mn] eqn:E end.
    destruct (Inv extra mn eq_refl) as (N1 & N2 & F & _).
    exists extra. auto.
Qed.

(** ** Line splits *)
Open Scope nat_scope.
Lemma extend_split_shape old_line new_lines start ti :
  exists s,
    extend_split_group_safely old_line new_lines start ti = start :: s /\
    StronglySorted lt s /\
    Forall (fun x => start < x < List.length new_lines) s /\
    List.length s <= 5.
Proof.
  unfold extend_split_group_safely; cbv zeta; unfold range.
  match goal with |- exists s, ?go (seq ?a0 ?m0) [?st] ?ct ?bs = _ /\ _ =>
    assert (G : forall m a g c b, exists s, go (seq a m) g c b = g ++ s /\
              StronglySorted lt s /\ Forall (fun x => a <= x < a + m) s /\ List.length s <= m);
    [|destruct (G m0 a0 [st] ct bs) as (s & E & S1 & S2 & S3)]
  end.
  - clear. induction m as [|m IH]; intros a g c b; cbn [seq].
    + exists []. rewrite app_nil_r. repeat split; constructor.
    + cbn beta iota zeta. destruct (_ || _)%bool.
      * destruct (IH (S a) g c b) as (s & E & S1 & S2 & S3). exists s.
        split; [exact E|]. split; [exact S1|]. split; [|lia].
        eapply Forall_impl; [|exact S2]. simpl; intros; lia.
      * destruct (qgt _ _).
        -- match goal with |- exists s, _ (seq (S a) m) (g ++ [a]) ?c' ?b' = _ /\ _ =>
             destruct (IH (S a) (g ++ [a]) c' b') as (s & E & S1 & S2 & S3) end.
           exists (a :: s). rewrite E, <- app_assoc. split; [reflexivity|].
           split; [constructor; [exact S1|eapply Forall_impl; [|exact S2]; simpl; intros; lia]|].
           split; [constructor; [lia|eapply Forall_impl; [|exact S2]; simpl; intros; lia]|simpl; lia].
        -- exists []. rewrite app_nil_r. repeat split; try constructor; simpl; lia.
  - exists s. rewrite E. split; [reflexivity|]. split; [exact S1|].
    split.
    + eapply Forall_impl; [|exact S2]. cbv beta. intros x Hx. lia.
    + lia.
Qed.

Lemma is_likely_split_candidate_some old_line new_lines i b :
  is_likely_split_candidate old_line new_lines i = Some b -> i < List.length new_lines.
Proof.
  unfold is_likely_split_candidate, getitem.
  destruct (nth_error new_lines i) eqn:E; [|discriminate]. intros _.
  apply nth_error_Some. rewrite E. discriminate.
Qed.

Lemma is_likely_split_candidate_none old_line new_lines i :
  is_likely_split_candidate old_line new_lines i = None <-> List.length new_lines <= i.
Proof.
  unfold is_likely_split_candidate, getitem. rewrite <- nth_error_None.
  destruct (nth_error new_lines i); split; congruence.
Qed.

Lemma fold_none_absorbs {A B} (f : option B -> A -> option B) l :
  (forall x, f None x = None) -> fold_left f l None = None.
Proof. intros Hf. induction l as [|x l IH]; simpl; [reflexivity|]. rewrite Hf. exact IH. Qed.

(** Every entry of [detect_line_splits] maps an old line of [matches] to a
    group that starts at its matched new line, is strictly increasing, stays
    inside the new file and has at most six lines; no old line appears twice. *)
Theorem detect_line_splits_groups old_lines new_lines matches ti u :
  detect_line_splits old_lines new_lines matches ti = Some u ->
  NoDup (map fst u) /\ Forall (split_group_ok matches new_lines) u.
Proof.
  unfold detect_line_splits. intros Hu.
  match type of Hu with fold_left ?f _ _ = _ =>
    pose proof (fold_left_inv (fun acc => match acc with None => True | Some u0 =>
       NoDup (map fst u0) /\ Forall (split_group_ok matches new_lines) u0 end) f matches (Some [])) as H end.
  rewrite Hu in H. apply H; clear H Hu.
  - split; constructor.
  - intros [u0|] [o [n s]] Hin Hinv; [|exact I]. cbn beta iota.
    destruct (getitem old_lines o) as [raw|]; [|exact I].
    destruct (is_likely_split_candidate (Str.strip raw) new_lines n) as [likely|] eqn:EL; [|exact I].
    apply is_likely_split_candidate_some in EL.
    destruct Hinv as [Hnd Hall]. split; [apply set_keys_nodup; exact Hnd|].
    apply Forall_forall. intros [k g] Hk.
    destruct (dict_set_in_eq _ _ _ _ _ Hk) as [[-> ->]|Hold];
      [|rewrite Forall_forall in Hall; exact (Hall _ Hold)].
    assert (Single : split_group_ok matches new_lines (o, [n])).
    { exists n, s, []. split; [exact Hin|]. split; [reflexivity|].
      split; [repeat constructor|]. split; [repeat constructor; exact EL|simpl; lia]. }
    destruct likely; [|exact Single].
    destruct (_ && _)%bool; [|exact Single].
    destruct (extend_split_shape (Str.strip raw) new_lines n ti) as (r & E & S1 & S2 & S3).
    rewrite E. exists n, s, r. split; [exact Hin|]. split; [reflexivity|].
    split; [constructor; [exact S1|eapply Forall_impl; [|exact S2]; simpl; intros; lia]|].
    split; [constructor; [exact EL|eapply Forall_impl; [|exact S2]; simpl; intros; lia]|simpl; lia].
Qed.

(** [detect_line_splits] raises no [IndexError] exactly when every match lies
    inside both files. *)
Theorem detect_line_splits_defined old_lines new_lines matches ti :
  detect_line_splits old_lines new_lines matches ti <> None <->
  Forall (fun e => fst e < List.length old_lines /\ fst (snd e) < List.length new_lines) matches.
Proof.
  unfold detect_line_splits.
  match goal with |- fold_left ?f _ _ <> None <-> _ => set (F := f) end.
  assert (FN : forall x, F None x = None) by (intros [? [? ?]]; reflexivity).
  assert (FS : forall u0 o n s, F (Some u0) (o, (n, s)) <> None <->
             o < List.length old_lines /\ n < List.length new_lines).
  { intros u0 o n s. unfold F. cbn beta iota. unfold getitem at 1.
    destruct (nth_error old_lines o) as [raw|] eqn:EO.
    - assert (Ho : o < List.length old_lines) by (apply nth_error_Some; rewrite EO; discriminate).
      destruct (is_likely_split_candidate (Str.strip raw) new_lines n) as [likely|] eqn:EL.
      + pose proof (is_likely_split_candidate_some _ _ _ _ EL). split; [auto|discriminate].
      + apply is_likely_split_candidate_none in EL. split; [congruence|lia].
    - apply nth_error_None in EO. split; [congruence|lia]. }
  generalize (@nil (nat * list nat)) as u0.
  induction matches as [|[o [n s]] l IH]; intros u0.
  - simpl. split; [constructor|discriminate].
  - change (fold_left F ((o, (n, s)) :: l) (Some u0)) with (fold_left F l (F (Some u0) (o, (n, s)))).
    rewrite Forall_cons_iff. simpl fst; simpl snd. rewrite <- FS with (u0 := u0) (s := s).
    destruct (F (Some u0) (o, (n, s))) as [u1|].
    + rewrite IH. split; [intros H; split; [discriminate|exact H]|tauto].
    + rewrite fold_none_absorbs by exact FN. tauto.
Qed.

(** ** Evaluation of a mapping *)
Open Scope Q_scope.

Lemma pair_eqb_eq p q : pair_eqb p q = true <-> p = q.
Proof.
  destruct p as [a b], q as [c d]; unfold pair_eqb; simpl.
  rewrite andb_true_iff, !Nat.eqb_eq. split; [intros [-> ->]; reflexivity|intros H; inversion H; auto].
Qed.

Lemma pair_mem_in p s : pair_mem p s = true <-> In p s.
Proof.
  unfold pair_mem. rewrite existsb_exists. split.
  - intros [q [Hq E]]. apply pair_eqb_eq in E. subst; exact Hq.
  - intros H. exists p. split; [exact H|]. apply pair_eqb_eq; reflexivity.
Qed.

Lemma pair_add_props s p :
  NoDup s -> NoDup (pair_add s p) /\ (forall q, In q (pair_add s p) <-> In q s \/ q = p).
Proof.
  intros Hs. unfold pair_add. destruct (pair_mem p s) eqn:E.
  - apply pair_mem_in in E. split; [exact Hs|]. intros q; split; [auto|intros [H| ->]; auto].
  - split.
    + apply NoDup_app; auto using NoDup_cons, NoDup_nil.
      * intros x Hx Hy. destruct Hy as [<-|[]]. apply pair_mem_in in Hx. congruence.
    + intros q. rewrite in_app_iff. simpl. intuition.
Qed.

Lemma fold_pair_add o ns : forall s, NoDup s ->
  NoDup (fold_left (fun s n => pair_add s (o, n)) ns s) /\
  (forall q, In q (fold_left (fun s n => pair_add s (o, n)) ns s) <-> In q s \/ In q (map (pair o) ns)).
Proof.
  induction ns as [|n ns IH]; intros s Hs; simpl.
  - split; [exact Hs|]. intros q; tauto.
  - destruct (pair_add_props s (o, n) Hs) as [H1 H2].
    destruct (IH _ H1) as [H3 H4]. split; [exact H3|].
    intros q. rewrite H4, H2. intuition.
Qed.

Lemma expand_pairs_fold (mapping : list (nat * mapped)) :
  (forall ps, NoDup ps -> forall ps',
     fold_left (fun acc '(old_idx, m) =>
       match acc with
       | None => None
       | Some pairs =>
           match m with
           | MList ns => Some (fold_left (fun s n => pair_add s (old_idx, n)) ns pairs)
           | MTuple (n :: _) => Some (pair_add pairs (old_idx, n))
           | MTuple [] => None
           | MInt n => Some (pair_add pairs (old_idx, n))
           | MOther => Some pairs
           end
       end) mapping (Some ps) = Some ps' ->
     NoDup ps' /\ forall q, In q ps' <-> In q ps \/ In q (flat_map (fun e => pairs_of (fst e) (snd e)) mapping)) /\
  (forall ps,
     fold_left (fun acc '(old_idx, m) =>
       match acc with
       | None => None
       | Some pairs =>
           match m with
           | MList ns => Some (fold_left (fun s n => pair_add s (old_idx, n)) ns pairs)
           | MTuple (n :: _) => Some (pair_add pairs (old_idx, n))
           | MTuple [] => None
           | MInt n => Some (pair_add pairs (old_idx, n))
           | MOther => Some pairs
           end
       end) mapping (Some ps) = None <-> exists o, In (o, MTuple []) mapping).
Proof.
  match goal with |- (forall ps, _ -> forall ps', fold_left ?f _ _ = _ -> _) /\ _ => set (F := f) end.
  assert (FN : forall l, fold_left F l None = None).
  { induction l as [|[o v] l IH]; simpl; auto. }
  induction mapping as [|[o v] l [IH1 IH2]]; split.
  - intros ps Hps ps' E. simpl in E. inversion E; subst. split; [exact Hps|]. simpl; tauto.
  - intros ps. simpl. split; [discriminate|intros [o []]].
  - intros ps Hps ps'.
    change (fold_left F ((o, v) :: l) (Some ps)) with (fold_left F l (F (Some ps) (o, v))).
    unfold F at 2. cbn beta iota.
    destruct v as [ns|[|n ns]|n|].
    + destruct (fold_pair_add o ns ps Hps) as [H1 H2]. intros E.
      destruct (IH1 _ H1 ps' E) as [H3 H4]. split; [exact H3|].
      intros q. rewrite H4, H2. simpl. rewrite in_app_iff. tauto.
    + rewrite FN. discriminate.
    + destruct (pair_add_props ps (o, n) Hps) as [H1 H2]. intros E.
      destruct (IH1 _ H1 ps' E) as [H3 H4]. split; [exact H3|].
      intros q. rewrite H4, H2. simpl. intuition.
    + destruct (pair_add_props ps (o, n) Hps) as [H1 H2]. intros E.
      destruct (IH1 _ H1 ps' E) as [H3 H4]. split; [exact H3|].
      intros q. rewrite H4, H2. simpl. intuition.
    + intros E. destruct (IH1 _ Hps ps' E) as [H3 H4]. split; [exact H3|].
      intros q. rewrite H4. simpl. tauto.
  - intros ps.
    change (fold_left F ((o, v) :: l) (Some ps)) with (fold_left F l (F (Some ps) (o, v))).
    unfold F at 2. cbn beta iota.
    assert (Ex : (exists o0, In (o0, MTuple []) ((o, v) :: l)) <->
                 v = MTuple [] \/ exists o0, In (o0, MTuple []) l).
    { simpl. split.
      - intros [o0 [H|H]]; [left; congruence|right; eauto].
      - intros [->|[o0 H]]; eauto. }
    rewrite Ex.
    destruct v as [ns|[|n ns]|n|]; try (rewrite IH2; split; [intros H; right; exact H|intros [H|H]; [discriminate|exact H]]).
    rewrite FN. split; auto.
Qed.

Lemma expand_pairs_set_props mapping ps :
  expand_pairs mapping = Some ps ->
  NoDup ps /\ forall q, In q ps <-> In q (flat_map (fun e => pairs_of (fst e) (snd e)) mapping).
Proof.
  unfold expand_pairs. intros E.
  destruct (proj1 (expand_pairs_fold mapping) [] (NoDup_nil _) ps E) as [H1 H2].
  split; [exact H1|]. intros q. rewrite H2. simpl. tauto.
Qed.

(** [expand_pairs] returns a set of pairs: the pairs [(old, n)] for every [n]
    of a list value, the first element of a tuple value and an [int] value,
    and none for any other value. *)
Theorem expand_pairs_set mapping ps :
  expand_pairs mapping = Some ps ->
  NoDup ps /\ forall q, In q ps <-> In q (flat_map (fun e => pairs_of (fst e) (snd e)) mapping).
Proof. apply expand_pairs_set_props. Qed.

(** [expand_pairs] raises [IndexError] exactly when some value of the mapping
    is an empty tuple. *)
Theorem expand_pairs_error mapping :
  expand_pairs mapping = None <-> exists o, In (o, MTuple []) mapping.
Proof. unfold expand_pairs. apply (proj2 (expand_pairs_fold mapping)). Qed.

Lemma filter_partition_length {A} (f : A -> bool) l :
  (List.length (filter f l) + List.length (filter (fun x => negb (f x)) l) = List.length l)%nat.
Proof. induction l as [|x l IH]; simpl; [reflexivity|]. destruct (f x); simpl; lia. Qed.

Lemma qn_ratio_range a b : (a <= b)%nat ->
  0 <= (if Nat.eqb b 0 then 0 else qn a / qn b) <= 1.
Proof.
  intros H. destruct (Nat.eqb b 0); [split; discriminate|].
  apply ratio_bounds; exact H.
Qed.

Lemma f1_range p r : 0 <= p <= 1 -> 0 <= r <= 1 ->
  0 <= (if Qeq_bool (p + r) 0 then 0 else 2 * p * r / (p + r)) <= 1.
Proof.
  intros [Hp0 Hp1] [Hr0 Hr1]. destruct (Qeq_bool (p + r) 0) eqn:E; [split; discriminate|].
  apply Qeq_bool_neq in E.
  assert (Hpos : 0 < p + r).
  { destruct (Qle_lt_or_eq 0 (p + r)) as [H|H]; [lra|exact H|]. exfalso; apply E; rewrite H; reflexivity. }
  split.
  - apply Qle_shift_div_l; [exact Hpos|]. nra.
  - apply Qle_shift_div_r; [exact Hpos|]. nra.
Qed.

(** The precision, recall and F1 score of [evaluate_mapping] all lie between 0
    and 1. *)
Theorem evaluate_mapping_range predicted ground_truth p r f :
  evaluate_mapping predicted ground_truth = Some (p, r, f) ->
  0 <= p <= 1 /\ 0 <= r <= 1 /\ 0 <= f <= 1.
Proof.
  unfold evaluate_mapping.
  destruct (expand_pairs predicted) as [A|]; [|discriminate].
  destruct (expand_pairs ground_truth) as [B|]; [|discriminate].
  cbv zeta. intros E. inversion E; subst; clear E.
  assert (HP := qn_ratio_range (List.length (filter (fun p => pair_mem p B) A))
     (List.length (filter (fun p => pair_mem p B) A) + List.length (filter (fun p => negb (pair_mem p B)) A)) ltac:(lia)).
  assert (HR := qn_ratio_range (List.length (filter (fun p => pair_mem p B) A))
     (List.length (filter (fun p => pair_mem p B) A) + List.length (filter (fun p => negb (pair_mem p A)) B)) ltac:(lia)).
  split; [exact HP|]. split; [exact HR|]. apply f1_range; assumption.
Qed.

Lemma filter_mem_all l ps : incl l ps ->
  filter (fun p => pair_mem p ps) l = l /\ filter (fun p => negb (pair_mem p ps)) l = [].
Proof.
  induction l as [|x l IH]; intros H; simpl; [auto|].
  assert (Hx : pair_mem x ps = true) by (apply pair_mem_in, H; left; reflexivity).
  rewrite Hx. simpl. destruct IH as [-> ->]; [intros y Hy; apply H; right; exact Hy|]. auto.
Qed.

Lemma inter_count_sym A B : NoDup A -> NoDup B ->
  List.length (filter (fun p => pair_mem p A) B) = List.length (filter (fun p => pair_mem p B) A).
Proof.
  intros HA HB. apply Permutation_length, NoDup_Permutation; try (apply NoDup_filter; assumption).
  intros x. rewrite !filter_In, !pair_mem_in. tauto.
Qed.

Lemma qn_self_div n : n <> 0%nat -> qn n / qn n == 1.
Proof.
  intros H. unfold Qdiv. apply Qmult_inv_r. unfold qn, Qeq; simpl. lia.
Qed.

(** A mapping with at least one pair, evaluated against itself, scores 1 in
    precision, recall and F1. *)
Theorem evaluate_mapping_self mapping ps :
  expand_pairs mapping = Some ps -> ps <> [] ->
  exists p r f, evaluate_mapping mapping mapping = Some (p, r, f) /\ p == 1 /\ r == 1 /\ f == 1.
Proof.
  intros E Hne. unfold evaluate_mapping. rewrite E. cbv zeta.
  destruct (filter_mem_all ps ps (incl_refl _)) as [-> ->].
  cbn [List.length]. rewrite Nat.add_0_r.
  assert (Hn : Nat.eqb (List.length ps) 0 = false).
  { apply Nat.eqb_neq. destruct ps; [congruence|discriminate]. }
  rewrite Hn. apply Nat.eqb_neq in Hn.
  set (x := qn (List.length ps) / qn (List.length ps)).
  assert (Hx : x == 1) by (apply qn_self_div; exact Hn).
  do 3 eexists. split; [reflexivity|]. split; [exact Hx|]. split; [exact Hx|].
  assert (Hb : Qeq_bool (x + x) 0 = false).
  { apply not_true_iff_false. intros Hq. apply Qeq_bool_eq in Hq. rewrite Hx in Hq. discriminate. }
  rewrite Hb. rewrite Hx. reflexivity.
Qed.

(** Swapping the prediction and the ground truth swaps precision and recall
    and keeps the F1 score. *)
Theorem evaluate_mapping_swap predicted ground_truth p r f :
  evaluate_mapping predicted ground_truth = Some (p, r, f) ->
  exists p' r' f', evaluate_mapping ground_truth predicted = Some (p', r', f') /\
    p' == r /\ r' == p /\ f' == f.
Proof.
  unfold evaluate_mapping.
  destruct (expand_pairs predicted) as [A|] eqn:EA; [|discriminate].
  destruct (expand_pairs ground_truth) as [B|] eqn:EB; [|discriminate].
  apply expand_pairs_set_props in EA as [HA _]. apply expand_pairs_set_props in EB as [HB _].
  cbv zeta. intros E. inversion E; subst; clear E.
  rewrite (inter_count_sym A B HA HB).
  do 3 eexists. split; [reflexivity|]. split; [reflexivity|]. split; [reflexivity|].
  match goal with |- (if Qeq_bool (?a + ?b) 0 then _ else _) == _ => generalize a b end.
  intros a b. assert (Hc : a + b == b + a) by apply Qplus_comm.
  destruct (Qeq_bool (a + b) 0) eqn:E1; destruct (Qeq_bool (b + a) 0) eqn:E2; try reflexivity.
  - apply Qeq_bool_eq in E1. apply Qeq_bool_neq in E2. exfalso. apply E2. rewrite <- Hc. exact E1.
  - apply Qeq_bool_neq in E1. apply Qeq_bool_eq in E2. exfalso. apply E1. rewrite Hc. exact E2.
  - unfold Qdiv. rewrite Hc. ring.
Qed.

(** ** Witnesses *)
Open Scope nat_scope.

Lemma get_top_k_candidates_nearest_witness :
  nth_error [0%N; 1%N; 3%N] 2 = Some 3%N /\
  ~ In 2 (map fst (SimhashIndex.get_top_k_candidates (fun _ => 0%N) [0%N; 1%N; 3%N] "a" 2)) /\
  Forall (fun z => snd z <= SimhashIndex.hamming_distance 0%N 3%N)
    (SimhashIndex.get_top_k_candidates (fun _ => 0%N) [0%N; 1%N; 3%N] "a" 2).
Proof.
  assert (H : ~ In 2 (map fst (SimhashIndex.get_top_k_candidates (fun _ => 0%N) [0%N; 1%N; 3%N] "a" 2)))
    by (vm_compute; intuition discriminate).
  split; [reflexivity|]. split; [exact H|].
  apply (get_top_k_candidates_nearest (fun _ => 0%N) [0%N; 1%N; 3%N] "a" 2 2 3%N); [reflexivity|exact H].
Defined.

Lemma normalize_block_comments_no_opener_witness :
  forallb (fun l => negb (search block_opener l)) ["int x = 1;"; "// note"]%string = true /\
  normalize_block_comments ["int x = 1;"; "// note"]%string = Some ["int x = 1;"; "// note"]%string.
Proof.
  split; [vm_compute; reflexivity|].
  apply normalize_block_comments_no_opener. vm_compute; reflexivity.
Defined.

Lemma find_valid_alternative_spec_witness :
  find_valid_alternative 0 ["x"; "int total = a + b;"]%string 0 [] = Some 1 /\
  1 < List.length ["x"; "int total = a + b;"]%string /\ 1 <> 0 /\
  Nat.max 1 0 - Nat.min 1 0 <= 15 /\
  Forall (fun e => fst (snd e) <> 1) (@nil (nat * (nat * Q))) /\
  is_semantically_reasonable_match 0 1 ["x"; "int total = a + b;"]%string = Some true.
Proof.
  split; [vm_compute; reflexivity|].
  apply (find_valid_alternative_spec 0 ["x"; "int total = a + b;"]%string 0 [] 1).
  vm_compute; reflexivity.
Defined.

Lemma resolve_conflicts_provenance_witness :
  resolve_conflicts init [(0, (0, 9 # 10)); (10, (0, 85 # 100)); (20, (1, 9 # 10))]
    ["x = alpha + 1"; "y = beta + 2"]%string
  = Some [(0, (0, 9 # 10)); (10, (1, 85 # 100)); (20, (1, 9 # 10))] /\
  Forall (provenance [(0, (0, 9 # 10)); (10, (0, 85 # 100)); (20, (1, 9 # 10))]
            ["x = alpha + 1"; "y = beta + 2"]%string)
    [(0, (0, 9 # 10)); (10, (1, 85 # 100)); (20, (1, 9 # 10))].
Proof.
  split; [vm_compute; reflexivity|].
  apply (resolve_conflicts_provenance init [(0, (0, 9 # 10)); (10, (0, 85 # 100)); (20, (1, 9 # 10))]
           ["x = alpha + 1"; "y = beta + 2"]%string).
  vm_compute; reflexivity.
Defined.

Lemma resolve_conflicts_no_conflict_witness :
  NoDup (map fst [(0, (0, 9 # 10)); (1, (1, 8 # 10))]) /\
  NoDup (map (fun e => fst (snd e)) [(0, (0, 9 # 10)); (1, (1, 8 # 10))]) /\
  resolve_conflicts init [(0, (0, 9 # 10)); (1, (1, 8 # 10))] ["a"; "b"]%string
  = Some [(0, (0, 9 # 10)); (1, (1, 8 # 10))].
Proof.
  assert (H : NoDup [0; 1]) by (repeat constructor; simpl; lia).
  split; [exact H|]. split; [exact H|].
  apply resolve_conflicts_no_conflict; exact H.
Defined.

Lemma detect_line_splits_groups_witness :
  detect_line_splits ["int result = computeValue(alpha, beta) + offset;"]%string
    ["int result = computeValue(alpha,"; "beta) + offset;"]%string [(0, (0, 5 # 10))] (1 # 100)
  = Some [(0, [0; 1])] /\
  NoDup (map fst [(0, [0; 1])]) /\
  Forall (split_group_ok [(0, (0, 5 # 10))] ["int result = computeValue(alpha,"; "beta) + offset;"]%string)
    [(0, [0; 1])].
Proof.
  split; [vm_compute; reflexivity|].
  apply (detect_line_splits_groups ["int result = computeValue(alpha, beta) + offset;"]%string
           ["int result = computeValue(alpha,"; "beta) + offset;"]%string [(0, (0, 5 # 10))] (1 # 100)).
  vm_compute; reflexivity.
Defined.

Lemma expand_pairs_set_witness :
  expand_pairs [(0, MList [1; 2]); (1, MInt 3); (2, MTuple [4; 5]); (3, MOther)]
  = Some [(0, 1); (0, 2); (1, 3); (2, 4)] /\
  NoDup [(0, 1); (0, 2); (1, 3); (2, 4)] /\
  forall q, In q [(0, 1); (0, 2); (1, 3); (2, 4)] <->
    In q (flat_map (fun e => pairs_of (fst e) (snd e))
            [(0, MList [1; 2]); (1, MInt 3); (2, MTuple [4; 5]); (3, MOther)]).
Proof.
  split; [vm_compute; reflexivity|].
  apply expand_pairs_set. vm_compute; reflexivity.
Defined.

Lemma evaluate_mapping_range_witness :
  evaluate_mapping [(0, MList [0; 1]); (1, MInt 1)] [(0, MInt 0); (1, MInt 2)]
  = Some (1 # 3, 1 # 2, 12 # 30) /\
  (0 <= 1 # 3 <= 1 /\ 0 <= 1 # 2 <= 1 /\ 0 <= 12 # 30 <= 1)%Q.
Proof.
  split; [vm_compute; reflexivity|].
  apply (evaluate_mapping_range [(0, MList [0; 1]); (1, MInt 1)] [(0, MInt 0); (1, MInt 2)]).
  vm_compute; reflexivity.
Defined.

Lemma evaluate_mapping_self_witness :
  expand_pairs [(0, MList [0; 1])] = Some [(0, 0); (0, 1)] /\ [(0, 0); (0, 1)] <> [] /\
  exists p r f, evaluate_mapping [(0, MList [0; 1])] [(0, MList [0; 1])] = Some (p, r, f) /\
    (p == 1 /\ r == 1 /\ f == 1)%Q.
Proof.
  split; [vm_compute; reflexivity|]. split; [discriminate|].
  apply (evaluate_mapping_self [(0, MList [0; 1])] [(0, 0); (0, 1)]); [vm_compute; reflexivity|discriminate].
Defined.

Lemma evaluate_mapping_swap_witness :
  evaluate_mapping [(0, MList [0; 1]); (1, MInt 1)] [(0, MInt 0); (1, MInt 2)]
  = Some (1 # 3, 1 # 2, 12 # 30) /\
  exists p' r' f', evaluate_mapping [(0, MInt 0); (1, MInt 2)] [(0, MList [0; 1]); (1, MInt 1)]
    = Some (p', r', f') /\ (p' == 1 # 2 /\ r' == 1 # 3 /\ f' == 12 # 30)%Q.
Proof.
  split; [vm_compute; reflexivity|].
  apply (evaluate_mapping_swap [(0, MList [0; 1]); (1, MInt 1)] [(0, MInt 0); (1, MInt 2)]).
  vm_compute; reflexivity.
Defined.

End Extras.
